(** * Idempotency middleware (src/scripts/migrate.js, lines 43-166)

    A shallow embedding of the request de-duplication middleware and of the
    JavaScript operations it relies on, followed by the properties of the
    design document that can be stated over it.

    Conventions.
    - A JavaScript string is a [string]; each character stands for one code
      unit in the range 0..255 (what Node delivers for header values and
      method tokens).
    - JavaScript numbers are restricted to integers ([Z]); no property below
      depends on how a fraction is printed.
    - Objects live in a [heap] and are referred to by address, so that a
      value can reach itself (a circular structure).
    - Objects are plain data: no getters, no [toJSON], and no own key named
      [__proto__]; a key that is missing reads as [undefined]. *)

From Stdlib Require Import ZArith Ascii.
From stdpp Require Import base option list strings sorting pretty.

Local Open Scope Z_scope.

(** ** JavaScript: strings, values, JSON *)
Module JS.

(** The double quote character, as a one-character string. *)
Definition DQUOTE : string := String "034"%char EmptyString.

(** [String.prototype.toUpperCase] on the letters a..z. *)
Definition toUpperCase_char (c : ascii) : ascii :=
  let n := N_of_ascii c in
  if ((97 <=? n) && (n <=? 122))%N then ascii_of_N (n - 32) else c.

Fixpoint toUpperCase (s : string) : string :=
  match s with
  | EmptyString => EmptyString
  | String c s' => String (toUpperCase_char c) (toUpperCase s')
  end.

(** White space and line terminators of ECMAScript below code unit 256:
    TAB, LF, VT, FF, CR, SPACE, NBSP. *)
Definition isWhiteSpace (c : ascii) : bool :=
  let n := N_of_ascii c in
  ((9 <=? n) && (n <=? 13) || (n =? 32) || (n =? 160))%N.

Fixpoint trimStart (s : string) : string :=
  match s with
  | EmptyString => EmptyString
  | String c s' => if isWhiteSpace c then trimStart s' else s
  end.

Fixpoint trimEnd (s : string) : string :=
  match s with
  | EmptyString => EmptyString
  | String c s' =>
      match trimEnd s' with
      | EmptyString => if isWhiteSpace c then EmptyString else String c EmptyString
      | t => String c t
      end
  end.

(** [String.prototype.trim]. *)
Definition trim (s : string) : string := trimEnd (trimStart s).

(** [Array.prototype.join] on strings. *)
Fixpoint join (sep : string) (parts : list string) : string :=
  match parts with
  | [] => ""
  | [p] => p
  | p :: rest => p +:+ sep +:+ join sep rest
  end.

(** Values; an object or an array is an address into the heap. *)
Abbreviation loc := nat (only parsing).

Inductive value :=
  | VUndefined
  | VNull
  | VBool (b : bool)
  | VNumber (n : Z)
  | VString (s : string)
  | VObject (l : loc).

Inductive object :=
  | OArray (elems : list value)
  | ORecord (props : list (string * value)).

Abbreviation heap := (list object) (only parsing).

Global Instance value_eq_dec : EqDecision value.
Proof. solve_decision. Defined.

(** [ToBoolean]: the falsy values are undefined, null, false, 0 and the
    empty string. *)
Definition ToBoolean (v : value) : bool :=
  match v with
  | VUndefined | VNull => false
  | VBool b => b
  | VNumber n => negb (n =? 0)
  | VString s => negb (bool_decide (s = ""))
  | VObject _ => true
  end.

(** Thrown values. *)
Inductive exn :=
  | TypeError (msg : string)
  | RangeError (msg : string)
  | DatabaseError (msg : string).

Global Instance exn_eq_dec : EqDecision exn.
Proof. solve_decision. Defined.

(** What evaluating an expression gives: a value or a thrown exception. *)
Inductive completion (A : Type) :=
  | Normal (a : A)
  | Throw (e : exn).
Global Arguments Normal {A} a.
Global Arguments Throw {A} e.

Global Instance completion_ret : MRet completion := @Normal.
Global Instance completion_bind : MBind completion := λ A B f m,
  match m with
  | Normal a => f a
  | Throw e => Throw e
  end.

(** The recursive serializer below runs on fuel; [OutOfFuel] is its third
    result. [JSON_stringify] gives it more fuel than it can use. *)
Inductive outcome (A : Type) :=
  | Done (a : A)
  | Raise (e : exn)
  | OutOfFuel.
Global Arguments Done {A} a.
Global Arguments Raise {A} e.
Global Arguments OutOfFuel {A}.

Global Instance outcome_ret : MRet outcome := @Done.
Global Instance outcome_bind : MBind outcome := λ A B f m,
  match m with
  | Done a => f a
  | Raise e => Raise e
  | OutOfFuel => OutOfFuel
  end.

(** [QuoteJSONString]. *)
Definition hexDigit (n : N) : ascii :=
  (if n <? 10 then ascii_of_N (48 + n) else ascii_of_N (87 + n))%N.

Definition quoteCodeUnit (c : ascii) : string :=
  let n := N_of_ascii c in
  if (n =? 8)%N then "\b"
  else if (n =? 9)%N then "\t"
  else if (n =? 10)%N then "\n"
  else if (n =? 12)%N then "\f"
  else if (n =? 13)%N then "\r"
  else if (n =? 34)%N then "\" +:+ DQUOTE
  else if (n =? 92)%N then "\\"
  else if (n <? 32)%N then
    "\u00" +:+ String (hexDigit (n / 16)) (String (hexDigit (n mod 16)) EmptyString)
  else String c EmptyString.

Fixpoint quoteCodeUnits (s : string) : string :=
  match s with
  | EmptyString => EmptyString
  | String c s' => quoteCodeUnit c +:+ quoteCodeUnits s'
  end.

Definition QuoteJSONString (s : string) : string :=
  DQUOTE +:+ quoteCodeUnits s +:+ DQUOTE.

(** [Get(holder, key)] on a plain record: the own property, or undefined. *)
Fixpoint Get (props : list (string * value)) (key : string) : value :=
  match props with
  | [] => VUndefined
  | (k, v) :: rest => if bool_decide (k = key) then v else Get rest key
  end.

(** [SerializeJSONProperty] with [SerializeJSONObject] and
    [SerializeJSONArray] inlined. [PropertyList] is the replacer array when
    there is one; [stack] holds the objects being serialized, and meeting
    one of them again is the circular structure error. [None] stands for
    the result undefined. *)
Fixpoint SerializeJSONProperty (fuel : nat) (h : heap)
    (PropertyList : option (list string)) (stack : list loc) (v : value)
    {struct fuel} : outcome (option string) :=
  match v with
  | VUndefined => Done None
  | VNull => Done (Some "null")
  | VBool b => Done (Some (if b then "true" else "false"))
  | VNumber n => Done (Some (pretty n))
  | VString s => Done (Some (QuoteJSONString s))
  | VObject l =>
      match fuel with
      | O => OutOfFuel
      | S fuel' =>
          match h !! l with
          | None => Done None
          | Some o =>
              if bool_decide (l ∈ stack)
              then Raise (TypeError "Converting circular structure to JSON")
              else
                let ser := SerializeJSONProperty fuel' h PropertyList (l :: stack) in
                match o with
                | OArray elems =>
                    partial ← mapM (λ e, strP ← ser e;
                                         mret (default "null" strP)) elems;
                    mret (Some ("[" +:+ join "," partial +:+ "]"))
                | ORecord props =>
                    let K := default (props.*1) PropertyList in
                    partial ← mapM (λ P, strP ← ser (Get props P);
                                         mret ((λ s, QuoteJSONString P +:+ ":" +:+ s)
                                                 <$> strP)) K;
                    mret (Some ("{" +:+ join "," (omap (M:=list) (λ m : option string, m) partial) +:+ "}"))
                end
          end
      end
  end.

(** [JSON.stringify(value, replacer)] where [replacer] is absent or an array
    of strings. Nesting is bounded by the number of objects in the heap, so
    the fuel given here is never used up (lemma [stringify_fuel] below). *)
Definition JSON_stringify (h : heap) (v : value) (replacer : option (list string))
    : completion (option string) :=
  match SerializeJSONProperty (S (length h)) h (remove_dups <$> replacer) [] v with
  | Done r => Normal r
  | Raise e => Throw e
  | OutOfFuel => Throw (RangeError "Maximum call stack size exceeded")
  end.

(** [Object.keys]: the index strings of an array or a string, the own keys
    of a record, nothing for a number or a boolean, and a TypeError for
    null and undefined. *)
Definition indexKeys (n : nat) : list string := pretty <$> seq 0 n.

Definition Object_keys (h : heap) (v : value) : completion (list string) :=
  match v with
  | VUndefined | VNull => Throw (TypeError "Cannot convert undefined or null to object")
  | VBool _ | VNumber _ => Normal []
  | VString s => Normal (indexKeys (String.length s))
  | VObject l =>
      match h !! l with
      | Some (OArray elems) => Normal (indexKeys (length elems))
      | Some (ORecord props) => Normal (props.*1)
      | None => Normal []
      end
  end.

(** The default order of [Array.prototype.sort]: strings by code units. *)
Definition codeUnitLe (a b : string) : Prop := String.leb a b = true.

Global Instance codeUnitLe_dec a b : Decision (codeUnitLe a b).
Proof. unfold codeUnitLe. apply _. Defined.

Definition Array_sort (keys : list string) : list string :=
  merge_sort codeUnitLe keys.

(** A template literal prints the value undefined as the word. *)
Definition interpolate (s : option string) : string := default "undefined" s.

End JS.
Export JS.

(** ** The middleware *)

(** [req]: the fields of the Express request the middleware reads.
    [idempotencyKey] is what [req.get('Idempotency-Key')] returns. *)
Module Req.

Record caller := { id : value }.

Record t := {
  method : string;
  agent : option caller;
  idempotencyKey : option string;
  baseUrl : option string;
  path : option string;
  body : value
}.

End Req.

(** A row of the table [idempotency_keys], with columns as the middleware
    reads them back: [request_hash] and [status_code] may be NULL. *)
Module Row.

Record t := {
  agent_id : value;
  idem_key : string;
  method : string;
  route : string;
  request_hash : option string;
  status_code : option Z;
  response_body : value
}.

End Row.

Abbreviation table := (list Row.t) (only parsing).

Global Instance row_eq_dec : EqDecision Row.t.
Proof. solve_decision. Defined.

(** The unique tuple (agent_id, idem_key, method, route). *)
Definition tuple : Type := (value * string * string * string)%type.

Global Instance tuple_eq_dec : EqDecision tuple.
Proof. unfold tuple. apply _. Defined.

Definition tuple_of (r : Row.t) : tuple :=
  (Row.agent_id r, Row.idem_key r, Row.method r, Row.route r).

(** Modelled from the spec: [queryOne] of ../config/database, which is not
    among the sources, run on the SELECT of lines 90-95. It is the Record
    Store's [lookup]: a point lookup by the unique tuple that returns
    nothing if absent; a store error surfaces as an exception. [fault] is
    the error the store raises for this query, if any. *)
Definition queryOne (fault : option exn) (db : table) (params : tuple)
    : completion (option Row.t) :=
  match fault with
  | Some e => Throw e
  | None => Normal (snd <$> list_find (λ r, tuple_of r = params) db)
  end.

(** Modelled from the spec: [query] of ../config/database, which is not
    among the sources, run on the INSERT ... ON CONFLICT (agent_id,
    idem_key, method, route) DO NOTHING of lines 138-153. It is the Record
    Store's [insertIfAbsent]: if a record with the same tuple already exists
    the insert is a no-op, otherwise the record is created. *)
Definition query (fault : option exn) (db : table) (r : Row.t) : completion table :=
  match fault with
  | Some e => Throw e
  | None =>
      if bool_decide (Exists (λ r', tuple_of r' = tuple_of r) db)
      then Normal db
      else Normal (db ++ [r])
  end.

(** The argument of [res.json]: a value at hand or an object literal. *)
Inductive json_arg :=
  | JValue (v : value)
  | JLiteral (props : list (string * value)).

(** A response the middleware sends itself:
    [res.set(..)], then [res.status(status).json(body)]. *)
Record reply := {
  reply_headers : list (string * string);
  reply_status : Z;
  reply_body : json_arg
}.

(** The variables the 'finish' listener closes over. *)
Record capture := {
  cap_agent_id : value;
  cap_key : string;
  cap_method : string;
  cap_route : string;
  cap_requestHash : string
}.

(** How one run of the middleware ends. *)
Inductive decision :=
  | CallNext (listener : option capture)
      (** [return next()], after attaching the interceptor and the 'finish'
          listener (line 159) or without them (lines 76, 77, 80, 83) *)
  | CallNextErr (err : exn)
      (** [return next(err)] (line 161) *)
  | Respond (r : reply)
      (** [return res.status(..).json(..)] (lines 100, 109) *)
  | ReplayFailed (headers : list (string * string)) (err : exn).
      (** [res.set(..)] (line 106), then [res.status(..).json(..)] throws
          (line 109) and the catch ends in [next(err)] (line 161) *)

Definition conflict_body : json_arg :=
  JLiteral [("success", VBool false);
            ("error", VString "Idempotency-Key reuse with different request payload")].

Definition default_body : json_arg := JLiteral [("success", VBool true)].

(** [stableStringify], lines 56-61. *)
Definition stableStringify (h : heap) (obj : value) : completion (option string) :=
  match obj with
  | VNull | VUndefined => Normal (Some "")
  | VString s => Normal (Some s)
  | _ => keys ← Object_keys h obj;
         JSON_stringify h obj (Some (Array_sort keys))
  end.

Record options := { methods : option (list string) }.

Section Idempotency.

(** [sha256], lines 63-65: the hexadecimal SHA-256 digest of Node's crypto
    module, kept abstract. *)
Variable sha256 : string → string.

(** The string that is hashed, and the request fingerprint (lines 85-88). *)
Definition route_of (req : Req.t) : string :=
  default "" (Req.baseUrl req) +:+ default "" (Req.path req).

Definition fingerprint (method route : string) (h : heap) (body : value)
    : completion string :=
  s ← stableStringify h body;
  mret (sha256 (method +:+ ":" +:+ route +:+ ":" +:+ interpolate s)).

(** [existing.request_hash && existing.request_hash !== requestHash]. *)
Definition hash_mismatch (stored : option string) (requestHash : string) : bool :=
  match stored with
  | None => false
  | Some s => negb (bool_decide (s = "")) && negb (bool_decide (s = requestHash))
  end.

(** [existing.status_code || 200]. *)
Definition replay_status (stored : option Z) : Z :=
  match stored with
  | Some n => if n =? 0 then 200 else n
  | None => 200
  end.

(** [existing.response_body || { success: true }]. *)
Definition replay_body (stored : value) : json_arg :=
  if ToBoolean stored then JValue stored else default_body.

(** Node refuses a status code outside 100..999 when the head of the
    response is written. *)
Definition valid_status (status : Z) : bool := (100 <=? status) && (status <=? 999).

(** [res.status(status).json(body)] as the middleware calls it on a found
    record: it throws, before anything is sent, for a status Node refuses
    and for a body [JSON.stringify] cannot serialize. The status is looked
    at first here; which of the two errors is thrown when both apply may
    depend on the version of Express. *)
Definition status_json (h : heap) (status : Z) (body : json_arg) : completion unit :=
  if negb (valid_status status) then Throw (RangeError "Invalid status code")
  else
    match body with
    | JLiteral _ => Normal tt
    | JValue v => JSON_stringify h v None;; mret tt
    end.

(** [!req.agent || !req.agent.id]. *)
Definition no_agent (req : Req.t) : bool :=
  match Req.agent req with
  | None => true
  | Some a => negb (ToBoolean (Req.id a))
  end.

Definition agent_id_of (req : Req.t) : value :=
  match Req.agent req with
  | Some a => Req.id a
  | None => VUndefined
  end.

(** [String(req.get('Idempotency-Key') || '').trim()], line 79. *)
Definition key_of (req : Req.t) : string :=
  trim (default "" (Req.idempotencyKey req)).

(** [idempotencyMiddleware], lines 74-163, up to the registration of the
    'finish' listener. [methods] is the closure variable of line 72, [db]
    the table and [select_fault] the error of the store on the lookup. *)
Definition idempotencyMiddleware (methods : list string) (h : heap)
    (select_fault : option exn) (db : table) (req : Req.t) : decision :=
  if negb (bool_decide (toUpperCase (Req.method req) ∈ methods)) then CallNext None
  else if no_agent req then CallNext None
  else
    let key := key_of req in
    if bool_decide (key = "") then CallNext None
    else if (200 <? String.length key)%nat then CallNext None
    else
      let route := route_of req in
      match fingerprint (Req.method req) route h (Req.body req) with
      | Throw err => CallNextErr err
      | Normal requestHash =>
          match queryOne select_fault db (agent_id_of req, key, Req.method req, route) with
          | Throw err => CallNextErr err
          | Normal (Some existing) =>
              if hash_mismatch (Row.request_hash existing) requestHash
              then Respond {| reply_headers := [];
                              reply_status := 409;
                              reply_body := conflict_body |}
              else
                let status := replay_status (Row.status_code existing) in
                let body := replay_body (Row.response_body existing) in
                match status_json h status body with
                | Normal _ =>
                    Respond {| reply_headers := [("Idempotent-Replay", "true")];
                               reply_status := status;
                               reply_body := body |}
                | Throw err => ReplayFailed [("Idempotent-Replay", "true")] err
                end
          | Normal None =>
              CallNext (Some {| cap_agent_id := agent_id_of req;
                                cap_key := key;
                                cap_method := Req.method req;
                                cap_route := route;
                                cap_requestHash := requestHash |})
          end
      end.

(** [idempotency(opts)], lines 71-72: the configured methods in upper case,
    POST when none are given. *)
Definition configured_methods (opts : options) : list string :=
  toUpperCase <$> default ["POST"] (methods opts).

Definition idempotency (opts : options) :=
  idempotencyMiddleware (configured_methods opts).

(** The 'finish' listener, lines 126-157: [statusCode] is [res.statusCode],
    [idemBody] is [res.locals.__idemBody], [insert_fault] the error of the
    store on the insert. Whatever is thrown inside is caught and dropped. *)
Definition responseBodyJson (h : heap) (responseBody : value)
    : completion (option string) :=
  match responseBody with
  | VString s => Normal (Some s)
  | _ => JSON_stringify h responseBody None
  end.

Definition committed_row (c : capture) (statusCode : Z) (json : option string) : Row.t :=
  {| Row.agent_id := cap_agent_id c;
     Row.idem_key := cap_key c;
     Row.method := cap_method c;
     Row.route := cap_route c;
     Row.request_hash := Some (cap_requestHash c);
     Row.status_code := Some statusCode;
     Row.response_body := from_option VString VNull json |}.

Definition on_finish (h : heap) (c : capture) (insert_fault : option exn)
    (statusCode : Z) (idemBody : value) (db : table) : table :=
  if (statusCode <? 200) || (300 <=? statusCode) then db
  else
    match json ← responseBodyJson h idemBody;
          query insert_fault db (committed_row c statusCode json) with
    | Normal db' => db'
    | Throw _ => db
    end.

End Idempotency.

(** ** The request cycle

    Express is outside the sources; what the properties need of it is: the
    route handler is what [next()] runs, [next(err)] skips it and goes to
    error handling, and 'finish' is emitted once the response has been
    handed over for transmission. *)

(** The calls a route handler makes on [res]. *)
Inductive res_call :=
  | res_status (code : Z)
  | res_json (body : value)
  | res_send (body : value)
  | res_end.

Definition handler : Type := Req.t → list res_call.

Record response := {
  statusCode : Z;
  locals_idemBody : value;
  sent : option (Z * value)
}.

Definition new_response : response :=
  {| statusCode := 200; locals_idemBody := VUndefined; sent := None |}.

(** What the original methods of Express do in the end: the first of them
    to be called sends the body with the status set so far. *)
Definition transmit (body : value) (res : response) : response :=
  match sent res with
  | Some _ => res
  | None => {| statusCode := statusCode res;
               locals_idemBody := locals_idemBody res;
               sent := Some (statusCode res, body) |}
  end.

(** The assignment [res.locals.__idemBody = body] of the wrappers of lines
    113-124. *)
Definition remember (body : value) (res : response) : response :=
  {| statusCode := statusCode res; locals_idemBody := body; sent := sent res |}.

(** [res.json] and [res.send] on a response that has the wrappers
    ([intercepted]) or has not. The originals are Express's and call each
    other through [this], that is through the wrappers when there are
    any: [res.json(body)] serializes the body and ends in
    [this.send(text)]; [res.send(body)] sends a string as it is, an
    empty body for null and undefined, and goes to [this.json(body)] for
    every other value. When the serialization throws, nothing is sent by
    that call. *)
Section Express.

Variable h : heap.
Variable intercepted : bool.

Definition wrapper (body : value) (res : response) : response :=
  if intercepted then remember body res else res.

(** [this.send(text)] for a string or undefined. *)
Definition send_text (text : value) (res : response) : response :=
  transmit text (wrapper text res).

Definition json (body : value) (res : response) : response :=
  let res := wrapper body res in
  match JSON_stringify h body None with
  | Normal text => send_text (from_option VString VUndefined text) res
  | Throw _ => res
  end.

Definition send (body : value) (res : response) : response :=
  match body with
  | VString _ | VUndefined => send_text body res
  | VNull => transmit (VString "") (wrapper VNull res)
  | _ => json body (wrapper body res)
  end.

Definition call (res : response) (c : res_call) : response :=
  match c with
  | res_status code =>
      {| statusCode := code; locals_idemBody := locals_idemBody res; sent := sent res |}
  | res_json body => json body res
  | res_send body => send body res
  | res_end => transmit VUndefined res
  end.

Definition run_handler (calls : list res_call) : response :=
  foldl call new_response calls.

End Express.

(** What the client gets. *)
Inductive answer :=
  | FromHandler (status : Z) (body : value)
  | FromMiddleware (r : reply)
  | FromErrorHandling (err : exn)
  | NoAnswer.

Definition handler_answer (res : response) : answer :=
  match sent res with
  | Some (status, body) => FromHandler status body
  | None => NoAnswer
  end.

Record served := {
  seen : answer;
  handler_runs : nat;
  db_after : table
}.

(** The store's errors for the two queries of one request. *)
Record faults := { select_fault : option exn; insert_fault : option exn }.

Definition healthy : faults := {| select_fault := None; insert_fault := None |}.

Section Serve.

Variable sha256 : string → string.

(** One request through the middleware, the route handler and the 'finish'
    listener. *)
Definition serve (opts : options) (h : heap) (f : faults) (route_handler : handler)
    (db : table) (req : Req.t) : served :=
  match idempotency sha256 opts h (select_fault f) db req with
  | CallNext None =>
      let res := run_handler h false (route_handler req) in
      {| seen := handler_answer res; handler_runs := 1; db_after := db |}
  | CallNext (Some c) =>
      let res := run_handler h true (route_handler req) in
      {| seen := handler_answer res;
         handler_runs := 1;
         db_after := match sent res with
                     | Some _ => on_finish h c (insert_fault f) (statusCode res)
                                           (locals_idemBody res) db
                     | None => db
                     end |}
  | CallNextErr err =>
      {| seen := FromErrorHandling err; handler_runs := 0; db_after := db |}
  | Respond r =>
      {| seen := FromMiddleware r; handler_runs := 0; db_after := db |}
  | ReplayFailed _ err =>
      {| seen := FromErrorHandling err; handler_runs := 0; db_after := db |}
  end.

(** A sequence of requests, one after the other, each with the store's
    errors at that time. *)
Definition serve_all (opts : options) (h : heap) (route_handler : handler)
    (arrivals : list (faults * Req.t)) (db : table) : table :=
  foldl (λ db a, db_after (serve opts h a.1 route_handler db a.2)) db arrivals.

End Serve.

(** ** Vocabulary of the properties *)

(** The request passes the four gates of lines 76-83. *)
Definition eligible (opts : options) (req : Req.t) : bool :=
  bool_decide (toUpperCase (Req.method req) ∈ configured_methods opts)
  && negb (no_agent req)
  && negb (bool_decide (key_of req = ""))
  && negb (200 <? String.length (key_of req))%nat.

(** The tuple under which a request is looked up and committed. *)
Definition tuple_of_req (req : Req.t) : tuple :=
  (agent_id_of req, key_of req, Req.method req, route_of req).

(** The same request with another [Idempotency-Key] header, or none. *)
Definition with_key (k : option string) (req : Req.t) : Req.t :=
  {| Req.method := Req.method req;
     Req.agent := Req.agent req;
     Req.idempotencyKey := k;
     Req.baseUrl := Req.baseUrl req;
     Req.path := Req.path req;
     Req.body := Req.body req |}.

(** The same request with another body. *)
Definition with_body (b : value) (req : Req.t) : Req.t :=
  {| Req.method := Req.method req;
     Req.agent := Req.agent req;
     Req.idempotencyKey := Req.idempotencyKey req;
     Req.baseUrl := Req.baseUrl req;
     Req.path := Req.path req;
     Req.body := b |}.

(** A string of white space only. *)
Fixpoint blank (s : string) : bool :=
  match s with
  | EmptyString => true
  | String c s' => isWhiteSpace c && blank s'
  end.

(** A status code of the 2xx range. *)
Definition is_2xx (status : Z) : Prop := 200 ≤ status < 300.

(** Well-formedness of the data. *)

(** The uniqueness constraint of the table. *)
Definition unique_tuples (db : table) : Prop := NoDup (tuple_of <$> db).

(** A JavaScript object has each key once. *)
Definition distinct_keys (o : object) : Prop :=
  match o with
  | OArray _ => True
  | ORecord props => NoDup props.*1
  end.

(** The values an object holds. *)
Definition children (o : object) : list value :=
  match o with
  | OArray elems => elems
  | ORecord props => props.*2
  end.

(** No object of the heap reaches itself: the objects can be ranked so that
    every object ranks above the objects it holds. *)
Definition acyclic (h : heap) : Prop :=
  ∃ rank : loc → nat,
    ∀ l o l', h !! l = Some o → VObject l' ∈ children o → (rank l' < rank l)%nat.

(** Two heaps that differ only in the order of the keys of their objects:
    the same keys, and each key reads the same value. *)
Definition same_up_to_key_order (o1 o2 : object) : Prop :=
  match o1, o2 with
  | OArray e1, OArray e2 => e1 = e2
  | ORecord p1, ORecord p2 => p1.*1 ≡ₚ p2.*1 ∧ ∀ k, Get p1 k = Get p2 k
  | _, _ => False
  end.

Definition reordered (h1 h2 : heap) : Prop := Forall2 same_up_to_key_order h1 h2.

Definition tuple_of_capture (c : capture) : tuple :=
  (cap_agent_id c, cap_key c, cap_method c, cap_route c).

(** ** Concrete requests

    The scenario of the design document: POST /orders with key abc. *)
Module Scenario.

(** A stand-in for SHA-256 where a closed example needs a digest: none of
    the examples depends on which function it is. *)
Definition digest (s : string) : string := s.

Definition defaults : options := {| methods := None |}.

(** Objects 0-5 are order payloads, object 6 has its keys in two orders
    (6 and 7). *)
Definition orders : heap :=
  [ ORecord [("item", VString "x")];
    ORecord [("item", VString "y")];
    ORecord [("sku", VString "x")];
    ORecord [("sku", VString "y")];
    ORecord [("order", VObject 2%nat)];
    ORecord [("order", VObject 3%nat)];
    ORecord [("item", VString "x"); ("qty", VNumber 2)];
    ORecord [("qty", VNumber 2); ("item", VString "x")] ].

(** The same heap with one more object, which holds itself. *)
Definition looped : heap := orders ++ [ORecord [("self", VObject 8%nat)]].

Definition post (key : option string) (body : value) : Req.t :=
  {| Req.method := "POST";
     Req.agent := Some {| Req.id := VString "agent-7" |};
     Req.idempotencyKey := key;
     Req.baseUrl := Some "";
     Req.path := Some "/orders";
     Req.body := body |}.

(** Route handlers: 201 with a JSON text, 200 with an empty text, 204
    without a body, 500. *)
Definition created : handler := λ _, [res_status 201; res_send (VString "{}")].
Definition empty_ok : handler := λ _, [res_status 200; res_send (VString "")].
Definition no_content : handler := λ _, [res_status 204; res_end].
Definition failing : handler := λ _, [res_status 500; res_json VNull].

Definition store_down : faults :=
  {| select_fault := Some (DatabaseError "connection terminated");
     insert_fault := None |}.

(** A row written before request hashes were recorded. *)
Definition legacy_row : Row.t :=
  {| Row.agent_id := VString "agent-7";
     Row.idem_key := "abc";
     Row.method := "POST";
     Row.route := "/orders";
     Row.request_hash := None;
     Row.status_code := Some 201;
     Row.response_body := VString "{}" |}.

End Scenario.

(** ** Further vocabulary *)

(** Two objects that read alike on the keys [K]. *)
Definition agree_on (K : list string) (o1 o2 : object) : Prop :=
  match o1, o2 with
  | OArray e1, OArray e2 => e1 = e2
  | ORecord p1, ORecord p2 => ∀ k, k ∈ K → Get p1 k = Get p2 k
  | _, _ => False
  end.

(** The rows of a table under one tuple. *)
Definition rows_of (t : tuple) (db : table) : table :=
  filter (λ r, tuple_of r = t) db.



(** The same store errors with another one for the insert. *)
Definition with_insert_fault (e : option exn) (f : faults) : faults :=
  {| select_fault := select_fault f; insert_fault := e |}.

(** ** The schema migrator (src/scripts/migrate.js, lines 13-42)

    The script is a straight line of effects. A run is the list of the
    effects it performs, in order, and the way it ends; the environment,
    the file system and the database are the [world] it runs in. *)
Module Migrate.

(** The [ssl] option given to the pool: [false], or
    [{ rejectUnauthorized: b }]. *)
Inductive ssl_option :=
  | ssl_false
  | ssl_rejectUnauthorized (b : bool).

Global Instance ssl_option_eq_dec : EqDecision ssl_option.
Proof. solve_decision. Defined.

Inductive event :=
  | console_error (msg : string)
  | console_error_thrown (err : exn)
  | console_log (msg : string)
  | fs_readFileSync (path : string)
  | new_Pool (connectionString : string) (ssl : ssl_option)
  | pool_connect
  | client_query (sql : string)
  | client_release
  | pool_end
  | process_exit (code : Z).

Global Instance event_eq_dec : EqDecision event.
Proof. solve_decision. Defined.

(** [schemaPath] is [path.join(__dirname, 'schema.sql')], [schema_file] what
    reading it gives, and the three faults are the errors of
    [pool.connect()], [client.query(sql)] and [pool.end()], if any. Logging,
    creating the pool and releasing the client are taken not to throw. *)
Record world := {
  DATABASE_URL : option string;
  DATABASE_SSL : option string;
  schemaPath : string;
  schema_file : completion string;
  connect_fault : option exn;
  query_fault : option exn;
  end_fault : option exn
}.

(** How a piece of the script ends: it returns, it throws, or the process
    exits. *)
Inductive ending (A : Type) :=
  | Returned (a : A)
  | Threw (err : exn)
  | Exited (code : Z).
Global Arguments Returned {A} a.
Global Arguments Threw {A} err.
Global Arguments Exited {A} code.

Definition run (A : Type) : Type := (list event * ending A)%type.

Global Instance run_ret : MRet run := λ A a, ([], Returned a).
Global Instance run_bind : MBind run := λ A B k m,
  match m with
  | (tr, Returned a) => let '(tr', e) := k a in (tr ++ tr', e)
  | (tr, Threw err) => (tr, Threw err)
  | (tr, Exited code) => (tr, Exited code)
  end.

Definition emit (e : event) : run unit := ([e], Returned tt).

(** An effect that may throw. *)
Definition attempt (e : event) (fault : option exn) : run unit :=
  ([e], match fault with
        | Some err => Threw err
        | None => Returned tt
        end).

Definition exit {A} (code : Z) : run A := ([process_exit code], Exited code).

(** [try { body } finally { finalizer }]: the finalizer runs whether the
    body returns or throws, and what it throws replaces the ending of the
    body. *)
Definition try_finally {A} (body : run A) (finalizer : run unit) : run A :=
  match body with
  | (tr, Exited code) => (tr, Exited code)
  | (tr, e) =>
      match finalizer with
      | (tr', Returned _) => (tr ++ tr', e)
      | (tr', Threw err) => (tr ++ tr', Threw err)
      | (tr', Exited code) => (tr ++ tr', Exited code)
      end
  end.

(** [!databaseUrl]. *)
Definition unset (v : option string) : bool :=
  match v with
  | None => true
  | Some s => bool_decide (s = "")
  end.

(** [process.env.DATABASE_SSL === 'true' ? { rejectUnauthorized: false } : false]. *)
Definition ssl_of (w : world) : ssl_option :=
  if bool_decide (DATABASE_SSL w = Some "true")
  then ssl_rejectUnauthorized false
  else ssl_false.

Definition readSchema (w : world) : run string :=
  ([fs_readFileSync (schemaPath w)],
   match schema_file w with
   | Normal sql => Returned sql
   | Throw err => Threw err
   end).

(** [main], lines 13-37. *)
Definition main (w : world) : run unit :=
  let databaseUrl := DATABASE_URL w in
  (if unset databaseUrl
   then emit (console_error "DATABASE_URL not set");; exit 1
   else mret tt);;
  sql ← readSchema w;
  emit (new_Pool (default "" databaseUrl) (ssl_of w));;
  attempt pool_connect (connect_fault w);;
  try_finally
    (emit (console_log "Applying schema.sql...");;
     attempt (client_query sql) (query_fault w);;
     emit (console_log "Done"))
    (emit client_release;;
     attempt pool_end (end_fault w)).

(** [main().catch(...)], lines 39-42: the effects of the whole script. *)
Definition script (w : world) : list event :=
  match main w with
  | (tr, Threw err) => tr ++ [console_error_thrown err; process_exit 1]
  | (tr, _) => tr
  end.

(** Worlds of the examples. *)
Definition local_world : world :=
  {| DATABASE_URL := Some "postgres://localhost/api";
     DATABASE_SSL := None;
     schemaPath := "/srv/api/scripts/schema.sql";
     schema_file := Normal "CREATE TABLE idempotency_keys ()";
     connect_fault := None;
     query_fault := None;
     end_fault := None |}.

Definition bad_schema_world : world :=
  {| DATABASE_URL := Some "postgres://db.example/api";
     DATABASE_SSL := Some "true";
     schemaPath := "/srv/api/scripts/schema.sql";
     schema_file := Normal "CREATE TABEL";
     connect_fault := None;
     query_fault := Some (DatabaseError "syntax error");
     end_fault := None |}.

Definition no_url_world : world :=
  {| DATABASE_URL := None;
     DATABASE_SSL := Some "true";
     schemaPath := "/srv/api/scripts/schema.sql";
     schema_file := Normal "CREATE TABLE idempotency_keys ()";
     connect_fault := None;
     query_fault := None;
     end_fault := None |}.

End Migrate.

(** ** More concrete requests *)
Module Scenario2.
Import Scenario.

(** The order payloads with the nested field of object 2 changed. *)
Definition orders' : heap :=
  <[2%nat := ORecord [("sku", VString "z"); ("gift", VBool true)]]> orders.

(** A record of another caller under the same key, method and route. *)
Definition other_agent_row : Row.t :=
  {| Row.agent_id := VString "agent-8";
     Row.idem_key := "abc";
     Row.method := "POST";
     Row.route := "/orders";
     Row.request_hash := Some "0f";
     Row.status_code := Some 201;
     Row.response_body := VString "{}" |}.

Definition insert_down : faults :=
  {| select_fault := None;
     insert_fault := Some (DatabaseError "connection terminated") |}.

(** A handler that answers 201 with an object as JSON. *)
Definition created_json : handler := λ _, [res_status 201; res_json (VObject 0%nat)].

(** Another stand-in for SHA-256, which like it never gives the empty
    string. *)
Definition tagged (s : string) : string := "sha256:" +:+ s.

(** A record with a status code that is no HTTP status. *)
Definition odd_status_row : Row.t :=
  {| Row.agent_id := VString "agent-7";
     Row.idem_key := "abc";
     Row.method := "POST";
     Row.route := "/orders";
     Row.request_hash := None;
     Row.status_code := Some 1000;
     Row.response_body := VString "{}" |}.

End Scenario2.

(** * Properties *)

(** ** The order of [Array.prototype.sort] *)
Module SortFacts.

Lemma leb_trans (s1 s2 s3 : string) :
  String.leb s1 s2 = true → String.leb s2 s3 = true → String.leb s1 s3 = true.
Proof.
  unfold String.leb. revert s2 s3.
  induction s1 as [|a s1 IH]; intros [|b s2] [|c s3]; simpl; try done.
  unfold Ascii.compare.
  destruct (N.compare_spec (N_of_ascii a) (N_of_ascii b)) as [Hab|Hab|Hab];
    destruct (N.compare_spec (N_of_ascii b) (N_of_ascii c)) as [Hbc|Hbc|Hbc];
    try done.
  - rewrite Hab, Hbc, N.compare_refl. apply IH.
  - intros _ _. rewrite Hab. by apply N.compare_lt_iff in Hbc as ->.
  - intros _ _. rewrite <- Hbc. by apply N.compare_lt_iff in Hab as ->.
  - intros _ _. assert (N_of_ascii a < N_of_ascii c)%N as Hac by lia.
    by apply N.compare_lt_iff in Hac as ->.
Qed.

Global Instance codeUnitLe_total : Total codeUnitLe.
Proof. intros a b. apply String.leb_total. Qed.

Global Instance codeUnitLe_trans : Transitive codeUnitLe.
Proof. intros a b c. apply leb_trans. Qed.

Global Instance codeUnitLe_antisym : AntiSymm (=) codeUnitLe.
Proof. intros a b. apply String.leb_antisym. Qed.

(** Sorting forgets the order the keys came in. *)
Lemma Array_sort_perm (k1 k2 : list string) :
  k1 ≡ₚ k2 → Array_sort k1 = Array_sort k2.
Proof.
  intros Hp. unfold Array_sort.
  apply (Sorted_unique codeUnitLe); try apply Sorted_merge_sort; try apply _.
  by rewrite !merge_sort_Permutation.
Qed.

End SortFacts.

(** ** The serializer *)
Module JSONFacts.

Lemma mapM_ext {A B} (f g : A → outcome B) (l : list A) :
  (∀ x, x ∈ l → f x = g x) → mapM f l = mapM g l.
Proof.
  induction l as [|x l IH]; intros Hfg; [done|]. simpl.
  rewrite (Hfg x) by left. rewrite IH; [done|].
  intros y Hy. apply Hfg. by right.
Qed.

Lemma mapM_OutOfFuel {A B} (f : A → outcome B) (l : list A) :
  mapM f l = OutOfFuel → ∃ x, x ∈ l ∧ f x = OutOfFuel.
Proof.
  induction l as [|x l IH]; simpl; [done|].
  destruct (f x) eqn:Hx; simpl; try done.
  - destruct (mapM f l); simpl; try done.
    intros _. destruct IH as (y & Hy & Hfy); [done|]. exists y. split; [by right|done].
  - intros _. exists x. split; [by left|done].
Qed.

Lemma mapM_Raise {A B} (f : A → outcome B) (l : list A) (e : exn) :
  mapM f l = Raise e → ∃ x, x ∈ l ∧ f x = Raise e.
Proof.
  induction l as [|x l IH]; simpl; [done|].
  destruct (f x) eqn:Hx; simpl; try done.
  - destruct (mapM f l); simpl; try done.
    intros [= ->]. destruct IH as (y & Hy & Hfy); [done|]. exists y. split; [by right|done].
  - intros [= ->]. exists x. split; [by left|done].
Qed.

(** A stack of distinct addresses of the heap is no longer than the heap. *)
Lemma stack_bounded (stack : list loc) (n : nat) :
  NoDup stack → (∀ l, l ∈ stack → (l < n)%nat) → (length stack ≤ n)%nat.
Proof.
  intros Hnd Hlt. rewrite <- (length_seq n 0).
  apply submseteq_length, NoDup_submseteq; [done|].
  intros l Hl. apply elem_of_seq. specialize (Hlt l Hl). lia.
Qed.

(** The serializer never runs out of the fuel [JSON_stringify] gives it. *)
Lemma serialize_fuel (h : heap) (PL : option (list string)) :
  ∀ fuel stack v,
    NoDup stack → (∀ l, l ∈ stack → (l < length h)%nat) →
    (length h < fuel + length stack)%nat →
    SerializeJSONProperty fuel h PL stack v ≠ OutOfFuel.
Proof.
  induction fuel as [|fuel IH]; intros stack v Hnd Hlt Hlen; destruct v; simpl; try done.
  - pose proof (stack_bounded stack (length h) Hnd Hlt). lia.
  - destruct (h !! l) as [o|] eqn:Hl; [|done].
    case_bool_decide as Hin; [done|].
    assert (∀ w, SerializeJSONProperty fuel h PL (l :: stack) w ≠ OutOfFuel) as Hrec.
    { intros w. apply IH.
      - by constructor.
      - intros l' [->|Hl']%elem_of_cons; [by eapply lookup_lt_Some|by apply Hlt].
      - simpl. lia. }
    destruct o as [elems|props].
    + match goal with |- context [mapM ?f ?l] => destruct (mapM f l) eqn:Hm end;
        simpl; try done.
      apply mapM_OutOfFuel in Hm as (x & _ & Hx).
      specialize (Hrec x). by destruct (SerializeJSONProperty _ _ _ _ x).
    + match goal with |- context [mapM ?f ?l] => destruct (mapM f l) eqn:Hm end;
        simpl; try done.
      apply mapM_OutOfFuel in Hm as (x & _ & Hx).
      specialize (Hrec (Get props x)).
      by destruct (SerializeJSONProperty _ _ _ _ (Get props x)).
Qed.

Lemma Get_children (props : list (string * value)) (k : string) :
  Get props k = VUndefined ∨ Get props k ∈ props.*2.
Proof.
  induction props as [|[k' v] props IH]; simpl; [by left|].
  case_bool_decide.
  - right. by left.
  - destruct IH as [IH|IH]; [by left|]. right. by right.
Qed.

(** Without a circular structure the serializer does not throw. *)
Lemma serialize_acyclic (h : heap) (PL : option (list string)) (rank : loc → nat) :
  (∀ l o l', h !! l = Some o → VObject l' ∈ children o → (rank l' < rank l)%nat) →
  ∀ fuel stack v e,
    (∀ l s, v = VObject l → s ∈ stack → (rank l < rank s)%nat) →
    SerializeJSONProperty fuel h PL stack v ≠ Raise e.
Proof.
  intros Hrank.
  induction fuel as [|fuel IH]; intros stack v e Hstack; destruct v; simpl; try done.
  destruct (h !! l) as [o|] eqn:Hl; [|done].
  case_bool_decide as Hin.
  { specialize (Hstack l l eq_refl Hin). lia. }
  assert (∀ w e', w = VUndefined ∨ w ∈ children o →
            SerializeJSONProperty fuel h PL (l :: stack) w ≠ Raise e') as Hrec.
  { intros w e' Hw. apply IH. intros l' s -> Hs.
    destruct Hw as [?|Hw]; [done|].
    pose proof (Hrank l o l' Hl Hw).
    apply elem_of_cons in Hs as [->|Hs]; [done|].
    specialize (Hstack l s eq_refl Hs). lia. }
  destruct o as [elems|props].
  - match goal with |- context [mapM ?f ?l] => destruct (mapM f l) eqn:Hm end;
      simpl; try done.
    apply mapM_Raise in Hm as (x & Hx & Hfx).
    specialize (Hrec x e0 (or_intror Hx)).
    destruct (SerializeJSONProperty _ _ _ _ x); by simplify_eq/=.
  - match goal with |- context [mapM ?f ?l] => destruct (mapM f l) eqn:Hm end;
      simpl; try done.
    apply mapM_Raise in Hm as (x & Hx & Hfx).
    specialize (Hrec (Get props x) e0 (Get_children props x)).
    destruct (SerializeJSONProperty _ _ _ _ (Get props x)); by simplify_eq/=.
Qed.

(** With a replacer array the order of the keys of the objects does not
    show in the output. *)
Lemma serialize_reordered (h1 h2 : heap) (K : list string) :
  reordered h1 h2 →
  ∀ fuel stack v,
    SerializeJSONProperty fuel h1 (Some K) stack v
    = SerializeJSONProperty fuel h2 (Some K) stack v.
Proof.
  intros Hh.
  induction fuel as [|fuel IH]; intros stack v; destruct v; simpl; try done.
  destruct (h1 !! l) as [o1|] eqn:H1.
  - destruct (Forall2_lookup_l _ _ _ _ _ Hh H1) as (o2 & -> & Ho).
    case_bool_decide; [done|].
    destruct o1 as [e1|p1], o2 as [e2|p2]; simpl in Ho; try done.
    + subst e2. f_equal. apply mapM_ext. intros x _. by rewrite IH.
    + destruct Ho as [_ Hget]. f_equal. apply mapM_ext. intros x _.
      by rewrite Hget, IH.
  - destruct (h2 !! l) as [o2|] eqn:H2; [|done].
    destruct (Forall2_lookup_r _ _ _ _ _ Hh H2) as (o1 & H1' & _). congruence.
Qed.

Lemma Get_perm (p1 p2 : list (string * value)) (k : string) :
  p1 ≡ₚ p2 → NoDup p1.*1 → Get p1 k = Get p2 k.
Proof.
  induction 1 as [|[k1 v1] p1 p2 Hp IH|[k1 v1] [k2 v2] p|p1 p2 p3 Hp12 IH12 Hp23 IH23];
    intros Hnd; simpl in *.
  - done.
  - apply NoDup_cons in Hnd as [_ Hnd]. by rewrite IH.
  - apply NoDup_cons in Hnd as [Hnot _].
    repeat case_bool_decide; try done. subst. exfalso. apply Hnot. by left.
  - rewrite IH12 by done. apply IH23.
    by rewrite <- Hp12.
Qed.

(** Reordering the keys of one object of the heap. *)
Lemma reordered_refl (h : heap) : reordered h h.
Proof.
  apply Forall2_same_length_lookup_2; [done|].
  intros i o1 o2 H1 H2. assert (o1 = o2) as <- by congruence.
  by destruct o1.
Qed.

Lemma reordered_insert (h : heap) (l : loc) (props props' : list (string * value)) :
  h !! l = Some (ORecord props) → NoDup props.*1 → props ≡ₚ props' →
  reordered h (<[l := ORecord props']> h).
Proof.
  intros Hl Hnd Hp.
  apply Forall2_same_length_lookup_2; [by rewrite length_insert|].
  intros i o1 o2 H1 H2.
  destruct (decide (l = i)) as [->|Hne].
  - rewrite list_lookup_insert_eq in H2 by (by eapply lookup_lt_Some).
    assert (o1 = ORecord props) as -> by congruence.
    assert (o2 = ORecord props') as -> by congruence.
    simpl. split; [by apply fmap_Permutation|]. intros k. by apply Get_perm.
  - rewrite list_lookup_insert_ne in H2 by done.
    assert (o1 = o2) as <- by congruence. by destruct o1.
Qed.

Lemma Object_keys_reordered (h1 h2 : heap) (v : value) :
  reordered h1 h2 →
  match Object_keys h1 v, Object_keys h2 v with
  | Normal k1, Normal k2 => k1 ≡ₚ k2
  | Throw e1, Throw e2 => e1 = e2
  | _, _ => False
  end.
Proof.
  intros Hh. destruct v; simpl; try done.
  destruct (h1 !! l) as [o1|] eqn:H1.
  - destruct (Forall2_lookup_l _ _ _ _ _ Hh H1) as (o2 & -> & Ho).
    destruct o1 as [e1|p1], o2 as [e2|p2]; simpl in Ho; try done.
    + by subst.
    + by destruct Ho.
  - destruct (h2 !! l) as [o2|] eqn:H2; [|done].
    destruct (Forall2_lookup_r _ _ _ _ _ Hh H2) as (o1 & H1' & _). congruence.
Qed.

End JSONFacts.

(** ** [stableStringify] and the fingerprint *)
Module FingerprintFacts.
Import JSONFacts SortFacts.

(** The fuel of [JSON_stringify] is enough on every heap. *)
Lemma JSON_stringify_fuel (h : heap) (v : value) (PL : option (list string)) :
  SerializeJSONProperty (S (length h)) h PL [] v ≠ OutOfFuel.
Proof.
  apply serialize_fuel; [constructor| |simpl; lia].
  intros l Hl. by apply elem_of_nil in Hl.
Qed.

Lemma JSON_stringify_acyclic (h : heap) (v : value) (replacer : option (list string)) :
  acyclic h → ∃ r, JSON_stringify h v replacer = Normal r.
Proof.
  intros [rank Hrank]. unfold JSON_stringify.
  pose proof (JSON_stringify_fuel h v (remove_dups <$> replacer)) as Hfuel.
  pose proof (serialize_acyclic h (remove_dups <$> replacer) rank Hrank
                (S (length h)) [] v) as Hthrow.
  destruct (SerializeJSONProperty _ _ _ _ v) as [r|e|].
  - by exists r.
  - exfalso. apply (Hthrow e); [|done]. intros l s _ Hs. by apply elem_of_nil in Hs.
  - done.
Qed.

Lemma stableStringify_acyclic (h : heap) (v : value) :
  acyclic h → ∃ r, stableStringify h v = Normal r.
Proof.
  intros Hh. destruct v; simpl; eauto using JSON_stringify_acyclic.
  destruct (h !! l) as [[?|?]|]; simpl; eauto using JSON_stringify_acyclic.
Qed.

Lemma stableStringify_reordered (h1 h2 : heap) (v : value) :
  reordered h1 h2 → stableStringify h1 v = stableStringify h2 v.
Proof.
  intros Hh. pose proof (Object_keys_reordered h1 h2 v Hh) as Hk.
  assert (∀ K, JSON_stringify h1 v (Some K) = JSON_stringify h2 v (Some K)) as Hs.
  { intros K. unfold JSON_stringify.
    rewrite (Forall2_length _ _ _ Hh).
    change (remove_dups <$> Some K) with (Some (remove_dups K)).
    by rewrite (serialize_reordered h1 h2). }
  destruct v; try done; unfold stableStringify;
    destruct (Object_keys h1 _) as [k1|e1], (Object_keys h2 _) as [k2|e2];
    simpl; try done; try congruence;
    by rewrite (Array_sort_perm k1 k2 Hk), Hs.
Qed.

Lemma fingerprint_acyclic sha256 (method route : string) (h : heap) (v : value) :
  acyclic h → ∃ hash, fingerprint sha256 method route h v = Normal hash.
Proof.
  intros Hh. unfold fingerprint.
  destruct (stableStringify_acyclic h v Hh) as [r ->]. simpl. eauto.
Qed.

Lemma fingerprint_reordered sha256 (method route : string) (h1 h2 : heap) (v : value) :
  reordered h1 h2 →
  fingerprint sha256 method route h1 v = fingerprint sha256 method route h2 v.
Proof. intros Hh. unfold fingerprint. by rewrite (stableStringify_reordered h1 h2). Qed.

End FingerprintFacts.

(** ** [trim] *)
Module TrimFacts.

Lemma trimStart_blank (ws s : string) :
  blank ws = true → trimStart (ws +:+ s) = trimStart s.
Proof.
  induction ws as [|c ws IH]; simpl; [done|].
  intros [Hc Hws]%andb_true_iff. rewrite Hc. by apply IH.
Qed.

Lemma trimEnd_blank_only (ws : string) : blank ws = true → trimEnd ws = "".
Proof.
  induction ws as [|c ws IH]; simpl; [done|].
  intros [Hc Hws]%andb_true_iff. by rewrite IH, Hc.
Qed.

Lemma trimEnd_blank (s ws : string) :
  blank ws = true → trimEnd (s +:+ ws) = trimEnd s.
Proof.
  intros Hws. induction s as [|c s IH]; simpl.
  - by apply trimEnd_blank_only.
  - by rewrite IH.
Qed.

Lemma trimStart_blank_only (ws : string) : blank ws = true → trimStart ws = "".
Proof.
  induction ws as [|c ws IH]; simpl; [done|].
  intros [-> Hws]%andb_true_iff. by apply IH.
Qed.

Lemma trim_blank_r (s ws : string) :
  blank ws = true → trim (s +:+ ws) = trim s.
Proof.
  intros Hws. unfold trim. induction s as [|c s IH]; simpl.
  - by rewrite trimStart_blank_only.
  - destruct (isWhiteSpace c); [done|].
    by apply (trimEnd_blank (String c s)).
Qed.

(** White space around a key does not count. *)
Lemma trim_surrounding (ws1 k ws2 : string) :
  blank ws1 = true → blank ws2 = true → trim (ws1 +:+ k +:+ ws2) = trim k.
Proof.
  intros H1 H2. rewrite <- (trim_blank_r k ws2 H2).
  unfold trim. by rewrite trimStart_blank.
Qed.

Lemma trim_blank (ws : string) : blank ws = true → trim ws = "".
Proof. intros Hws. unfold trim. by rewrite trimStart_blank_only. Qed.

End TrimFacts.

(** ** The middleware, case by case *)
Module MiddlewareFacts.

Lemma eligible_false (opts : options) (req : Req.t) :
  toUpperCase (Req.method req) ∉ configured_methods opts
  ∨ no_agent req = true
  ∨ key_of req = ""
  ∨ (200 < String.length (key_of req))%nat →
  eligible opts req = false.
Proof.
  unfold eligible. intros [H|[H|[H|H]]].
  - by rewrite bool_decide_eq_false_2.
  - rewrite H. by rewrite andb_false_r.
  - rewrite (bool_decide_eq_true_2 _ H). by rewrite andb_false_r.
  - apply Nat.ltb_lt in H. rewrite H. by rewrite andb_false_r.
Qed.

Lemma eligible_true (opts : options) (req : Req.t) :
  eligible opts req = true ↔
  toUpperCase (Req.method req) ∈ configured_methods opts
  ∧ no_agent req = false
  ∧ key_of req ≠ ""
  ∧ (String.length (key_of req) ≤ 200)%nat.
Proof.
  unfold eligible. rewrite !andb_true_iff, !negb_true_iff.
  rewrite bool_decide_eq_true, bool_decide_eq_false, Nat.ltb_ge. tauto.
Qed.

Section WithDigest.
Variable sha256 : string → string.

(** A request that fails one of the gates is handed on untouched. *)
Lemma idempotency_bypass opts h sf db req :
  eligible opts req = false → idempotency sha256 opts h sf db req = CallNext None.
Proof.
  unfold eligible, idempotency, idempotencyMiddleware. intros He.
  case_bool_decide; simpl in *; [|done].
  destruct (no_agent req); simpl in *; [done|].
  case_bool_decide; simpl in *; [done|].
  by destruct (200 <? String.length (key_of req))%nat.
Qed.

(** A request that passes them is fingerprinted and looked up. *)
Lemma idempotency_eligible opts h sf db req :
  eligible opts req = true →
  idempotency sha256 opts h sf db req =
    match fingerprint sha256 (Req.method req) (route_of req) h (Req.body req) with
    | Throw err => CallNextErr err
    | Normal requestHash =>
        match queryOne sf db (tuple_of_req req) with
        | Throw err => CallNextErr err
        | Normal (Some existing) =>
            if hash_mismatch (Row.request_hash existing) requestHash
            then Respond {| reply_headers := [];
                            reply_status := 409;
                            reply_body := conflict_body |}
            else
              match status_json h (replay_status (Row.status_code existing))
                      (replay_body (Row.response_body existing)) with
              | Normal _ =>
                  Respond {| reply_headers := [("Idempotent-Replay", "true")];
                             reply_status := replay_status (Row.status_code existing);
                             reply_body := replay_body (Row.response_body existing) |}
              | Throw err => ReplayFailed [("Idempotent-Replay", "true")] err
              end
        | Normal None =>
            CallNext (Some {| cap_agent_id := agent_id_of req;
                              cap_key := key_of req;
                              cap_method := Req.method req;
                              cap_route := route_of req;
                              cap_requestHash := requestHash |})
        end
    end.
Proof.
  intros (Hm & Ha & Hk & Hlen)%eligible_true.
  unfold idempotency, idempotencyMiddleware.
  rewrite (bool_decide_eq_true_2 _ Hm), Ha, (bool_decide_eq_false_2 _ Hk). simpl.
  apply Nat.ltb_ge in Hlen. by rewrite Hlen.
Qed.

(** The listener either leaves the table alone or appends one 2xx row whose
    tuple was free. *)
Lemma on_finish_cases h c fault status body (db : table) :
  on_finish h c fault status body db = db
  ∨ ∃ json, is_2xx status
      ∧ (tuple_of_capture c ∉ tuple_of <$> db)
      ∧ on_finish h c fault status body db = db ++ [committed_row c status json].
Proof.
  unfold on_finish.
  destruct ((status <? 200) || (300 <=? status)) eqn:Hs; [by left|].
  apply orb_false_iff in Hs as [H1%Z.ltb_ge H2%Z.leb_gt].
  destruct (responseBodyJson h body) as [json|e]; simpl; [|by left].
  unfold query. destruct fault; [by left|].
  case_bool_decide as Hex; [by left|].
  right. exists json. split; [done|]. split; [|done].
  intros (r & Hr & Hin)%list_elem_of_fmap. apply Hex, Exists_exists.
  exists r. split; [done|]. by rewrite <- Hr.
Qed.

Lemma on_finish_unique h c fault status body (db : table) :
  unique_tuples db → unique_tuples (on_finish h c fault status body db).
Proof.
  intros Hu. destruct (on_finish_cases h c fault status body db) as [->|(j & _ & Hni & ->)];
    [done|].
  unfold unique_tuples. rewrite fmap_app. apply NoDup_app. split; [done|].
  split; [|apply NoDup_singleton].
  intros t Ht [->|[]%elem_of_nil]%elem_of_cons. by apply Hni.
Qed.

Lemma on_finish_taken h c fault status body (db : table) :
  tuple_of_capture c ∈ tuple_of <$> db → on_finish h c fault status body db = db.
Proof.
  intros Hin. by destruct (on_finish_cases h c fault status body db) as [->|(j & _ & Hni & _)].
Qed.

(** The same for a whole request. *)
Lemma serve_cases opts h f route_handler (db : table) req :
  db_after (serve sha256 opts h f route_handler db req) = db
  ∨ ∃ c code json, is_2xx code
      ∧ (tuple_of_capture c ∉ tuple_of <$> db)
      ∧ db_after (serve sha256 opts h f route_handler db req)
        = db ++ [committed_row c code json].
Proof.
  unfold serve.
  destruct (idempotency sha256 opts h (select_fault f) db req) as [[c|]|e|r|hs e]; simpl;
    try by left.
  destruct (sent _); [|by left].
  destruct (on_finish_cases h c (insert_fault f)
              (statusCode (run_handler h true (route_handler req)))
              (locals_idemBody (run_handler h true (route_handler req))) db)
    as [->|(j & H2 & Hni & ->)]; [by left|].
  right. eauto 10.
Qed.

Lemma serve_unique opts h f route_handler (db : table) req :
  unique_tuples db →
  unique_tuples (db_after (serve sha256 opts h f route_handler db req)).
Proof.
  intros Hu.
  destruct (serve_cases opts h f route_handler db req) as [->|(c & s & j & _ & Hni & ->)];
    [done|].
  unfold unique_tuples. rewrite fmap_app. apply NoDup_app. split; [done|].
  split; [|apply NoDup_singleton].
  intros t Ht [->|[]%elem_of_nil]%elem_of_cons. by apply Hni.
Qed.

Lemma serve_all_unique opts h route_handler arrivals (db : table) :
  unique_tuples db → unique_tuples (serve_all sha256 opts h route_handler arrivals db).
Proof.
  revert db. induction arrivals as [|[f req] arrivals IH]; intros db Hu; [done|].
  simpl. apply IH. by apply serve_unique.
Qed.

Lemma serve_all_grows opts h route_handler arrivals (db : table) :
  ∃ added, serve_all sha256 opts h route_handler arrivals db = db ++ added.
Proof.
  revert db. induction arrivals as [|[f req] arrivals IH]; intros db; simpl.
  - exists []. by rewrite app_nil_r.
  - destruct (serve_cases opts h f route_handler db req)
      as [->|(c & code & j & _ & _ & ->)]; [done|].
    destruct (IH (db ++ [committed_row c code j])) as [added ->].
    eexists. by rewrite <- app_assoc.
Qed.

(** Every row a request adds has a 2xx status. *)
Lemma serve_rows opts h f route_handler (db : table) req row :
  row ∈ db_after (serve sha256 opts h f route_handler db req) →
  row ∈ db ∨ ∃ code, Row.status_code row = Some code ∧ is_2xx code.
Proof.
  destruct (serve_cases opts h f route_handler db req)
    as [->|(c & code & j & H2 & _ & ->)]; [by left|].
  intros [Hin|Hin]%elem_of_app; [by left|].
  apply list_elem_of_singleton in Hin as ->. right. by exists code.
Qed.

Lemma hash_mismatch_same (hash : string) : hash_mismatch (Some hash) hash = false.
Proof.
  unfold hash_mismatch. rewrite (bool_decide_eq_true_2 (hash = hash)) by done.
  by rewrite andb_false_r.
Qed.

Lemma hash_mismatch_other (stored hash : string) :
  stored ≠ "" → stored ≠ hash → hash_mismatch (Some stored) hash = true.
Proof.
  intros H1 H2. unfold hash_mismatch.
  by rewrite (bool_decide_eq_false_2 _ H1), (bool_decide_eq_false_2 _ H2).
Qed.

(** The four ways a request that passes the gates can go. *)
Lemma idempotency_fingerprint_error opts h sf db req err :
  eligible opts req = true →
  fingerprint sha256 (Req.method req) (route_of req) h (Req.body req) = Throw err →
  idempotency sha256 opts h sf db req = CallNextErr err.
Proof. intros He Hfp. by rewrite idempotency_eligible, Hfp. Qed.

Lemma idempotency_lookup_error opts h db req hash err :
  eligible opts req = true →
  fingerprint sha256 (Req.method req) (route_of req) h (Req.body req) = Normal hash →
  idempotency sha256 opts h (Some err) db req = CallNextErr err.
Proof. intros He Hfp. by rewrite idempotency_eligible, Hfp. Qed.

Lemma idempotency_replay opts h sf db req hash existing :
  eligible opts req = true →
  fingerprint sha256 (Req.method req) (route_of req) h (Req.body req) = Normal hash →
  queryOne sf db (tuple_of_req req) = Normal (Some existing) →
  hash_mismatch (Row.request_hash existing) hash = false →
  status_json h (replay_status (Row.status_code existing))
    (replay_body (Row.response_body existing)) = Normal tt →
  idempotency sha256 opts h sf db req
  = Respond {| reply_headers := [("Idempotent-Replay", "true")];
               reply_status := replay_status (Row.status_code existing);
               reply_body := replay_body (Row.response_body existing) |}.
Proof. intros He Hfp Hq Hm Hs. by rewrite idempotency_eligible, Hfp, Hq, Hm, Hs. Qed.

(** A found record whose response cannot be sent ends in error handling,
    with the replay header set. *)
Lemma idempotency_replay_failed opts h sf db req hash existing err :
  eligible opts req = true →
  fingerprint sha256 (Req.method req) (route_of req) h (Req.body req) = Normal hash →
  queryOne sf db (tuple_of_req req) = Normal (Some existing) →
  hash_mismatch (Row.request_hash existing) hash = false →
  status_json h (replay_status (Row.status_code existing))
    (replay_body (Row.response_body existing)) = Throw err →
  idempotency sha256 opts h sf db req
  = ReplayFailed [("Idempotent-Replay", "true")] err.
Proof. intros He Hfp Hq Hm Hs. by rewrite idempotency_eligible, Hfp, Hq, Hm, Hs. Qed.

Lemma idempotency_conflict opts h sf db req hash existing :
  eligible opts req = true →
  fingerprint sha256 (Req.method req) (route_of req) h (Req.body req) = Normal hash →
  queryOne sf db (tuple_of_req req) = Normal (Some existing) →
  hash_mismatch (Row.request_hash existing) hash = true →
  idempotency sha256 opts h sf db req
  = Respond {| reply_headers := []; reply_status := 409; reply_body := conflict_body |}.
Proof. intros He Hfp Hq Hm. by rewrite idempotency_eligible, Hfp, Hq, Hm. Qed.

Lemma serve_respond opts h f route_handler db req r :
  idempotency sha256 opts h (select_fault f) db req = Respond r →
  serve sha256 opts h f route_handler db req
  = {| seen := FromMiddleware r; handler_runs := 0; db_after := db |}.
Proof. intros Hd. unfold serve. by rewrite Hd. Qed.

Lemma serve_error opts h f route_handler db req err :
  idempotency sha256 opts h (select_fault f) db req = CallNextErr err →
  serve sha256 opts h f route_handler db req
  = {| seen := FromErrorHandling err; handler_runs := 0; db_after := db |}.
Proof. intros Hd. unfold serve. by rewrite Hd. Qed.

(** The replay header is set on the replay branch only. *)
Lemma replay_header_only_on_replay opts h sf db req r :
  idempotency sha256 opts h sf db req = Respond r →
  ("Idempotent-Replay", "true") ∈ reply_headers r →
  ∃ existing, queryOne sf db (tuple_of_req req) = Normal (Some existing)
    ∧ r = {| reply_headers := [("Idempotent-Replay", "true")];
             reply_status := replay_status (Row.status_code existing);
             reply_body := replay_body (Row.response_body existing) |}.
Proof.
  destruct (eligible opts req) eqn:He; [|by rewrite idempotency_bypass].
  rewrite idempotency_eligible by done.
  destruct (fingerprint sha256 _ _ h _) as [hash|e]; [|done].
  destruct (queryOne sf db (tuple_of_req req)) as [[existing|]|e]; try done.
  destruct (hash_mismatch _ _).
  - intros [= <-]. simpl. by intros ?%elem_of_nil.
  - destruct (status_json _ _ _); [|done]. intros [= <-] _. by exists existing.
Qed.

(** A replay whose status Node accepts and whose body can be serialized is
    sent. *)
Lemma status_json_replay h status (body : value) :
  100 ≤ status ≤ 999 →
  (∀ err, JSON_stringify h body None ≠ Throw err) →
  status_json h status (replay_body body) = Normal tt.
Proof.
  intros [Hlo Hhi] Hser. unfold status_json, valid_status.
  rewrite (proj2 (Z.leb_le _ _) Hlo), (proj2 (Z.leb_le _ _) Hhi). simpl.
  unfold replay_body. destruct (ToBoolean body); [|done]. simpl.
  destruct (JSON_stringify h body None) as [r|err] eqn:Hj; [done|]. by destruct (Hser err).
Qed.

Lemma replay_failed_found opts h sf db req hs err :
  idempotency sha256 opts h sf db req = ReplayFailed hs err →
  hs = [("Idempotent-Replay", "true")]
  ∧ ∃ existing, queryOne sf db (tuple_of_req req) = Normal (Some existing)
      ∧ status_json h (replay_status (Row.status_code existing))
          (replay_body (Row.response_body existing)) = Throw err.
Proof.
  destruct (eligible opts req) eqn:He; [|by rewrite idempotency_bypass].
  rewrite idempotency_eligible by done.
  destruct (fingerprint sha256 _ _ h _) as [hash|e]; [|done].
  destruct (queryOne sf db (tuple_of_req req)) as [[existing|]|e]; try done.
  destruct (hash_mismatch _ _); [done|].
  destruct (status_json _ _ _) as [|e] eqn:Hs; [done|].
  intros [= <- <-]. split; [done|]. by exists existing.
Qed.

Lemma serve_replay_failed opts h f route_handler db req hs err :
  idempotency sha256 opts h (select_fault f) db req = ReplayFailed hs err →
  serve sha256 opts h f route_handler db req
  = {| seen := FromErrorHandling err; handler_runs := 0; db_after := db |}.
Proof. intros Hd. unfold serve. by rewrite Hd. Qed.

Lemma queryOne_elem sf (db : table) (t : tuple) (r : Row.t) :
  queryOne sf db t = Normal (Some r) → sf = None ∧ r ∈ db ∧ tuple_of r = t.
Proof.
  unfold queryOne. destruct sf; [done|]. intros [= Hf].
  destruct (list_find _ db) as [[i r']|] eqn:Hfind; [|done].
  simpl in Hf. injection Hf as ->.
  apply list_find_Some in Hfind as (Hi & Ht & _).
  split; [done|]. split; [|done]. by eapply list_elem_of_lookup_2.
Qed.

(** The request hash of every row a request adds is a digest. *)
Lemma serve_hashed opts h f route_handler (db : table) req row :
  row ∈ db_after (serve sha256 opts h f route_handler db req) →
  row ∈ db ∨ ∃ s, Row.request_hash row = Some (sha256 s).
Proof.
  destruct (eligible opts req) eqn:He.
  2:{ unfold serve. rewrite idempotency_bypass by done. by left. }
  unfold serve. rewrite idempotency_eligible by done.
  unfold fingerprint.
  destruct (stableStringify h (Req.body req)) as [str|e]; simpl; [|by left].
  destruct (queryOne _ db _) as [[existing|]|e]; simpl; try by left.
  { destruct (hash_mismatch _ _); [by left|]. destruct (status_json _ _ _); by left. }
  destruct (sent _); [|by left].
  match goal with |- context [on_finish h ?c ?ft ?st ?b db] =>
    destruct (on_finish_cases h c ft st b db) as [->|(j & _ & _ & ->)] end; [by left|].
  intros [Hin|Hin]%elem_of_app; [by left|].
  apply list_elem_of_singleton in Hin as ->. right. by eexists.
Qed.

Lemma serve_all_hashed opts h route_handler arrivals (db : table) row :
  row ∈ serve_all sha256 opts h route_handler arrivals db →
  row ∈ db ∨ ∃ s, Row.request_hash row = Some (sha256 s).
Proof.
  revert db. induction arrivals as [|[f req] arrivals IH]; intros db; [by left|].
  simpl. intros [Hin|Hs]%IH; [|by right].
  by apply serve_hashed in Hin.
Qed.

End WithDigest.

(** The interceptor does not change what the client is sent, nor the
    status. *)
Lemma interceptor_transparent (h : heap) (calls : list res_call) :
  statusCode (run_handler h true calls) = statusCode (run_handler h false calls)
  ∧ sent (run_handler h true calls) = sent (run_handler h false calls).
Proof.
  unfold run_handler.
  assert (∀ r1 r2, statusCode r1 = statusCode r2 → sent r1 = sent r2 →
            statusCode (foldl (call h true) r1 calls)
            = statusCode (foldl (call h false) r2 calls)
            ∧ sent (foldl (call h true) r1 calls)
              = sent (foldl (call h false) r2 calls)) as H.
  { induction calls as [|c calls IH]; intros r1 r2 Hs Ht; [done|].
    simpl. apply IH; destruct r1, r2; simpl in *; subst;
      destruct c as [code|body|body|]; simpl; try done;
      unfold send, json, send_text, transmit, wrapper; simpl;
      try destruct body; simpl;
      repeat match goal with
             | |- context [JSON_stringify ?a ?b ?c] => destruct (JSON_stringify a b c)
             end; simpl; by destruct sent1. }
  by apply H.
Qed.

End MiddlewareFacts.

(** * The claims of the design document *)

Import Scenario Scenario2 JSONFacts MiddlewareFacts FingerprintFacts TrimFacts.

(** C7. A request whose method (in upper case) is not among the configured
    methods (POST alone by default), or that has no identified caller, or
    that supplies no idempotency key, or whose key is longer than 200
    characters, is passed through: the middleware calls [next()] with
    nothing attached, the route handler runs once on the untouched
    response object, the table is left as it was, and what the client
    gets is the handler's answer, never a replay or a conflict. *)
Theorem C7_bypass_passes_through (sha256 : string → string) opts h f
    (route_handler : handler) (db : table) req :
  toUpperCase (Req.method req) ∉ configured_methods opts
  ∨ no_agent req = true
  ∨ key_of req = ""
  ∨ (200 < String.length (key_of req))%nat →
  configured_methods defaults = ["POST"]
  ∧ idempotency sha256 opts h (select_fault f) db req = CallNext None
  ∧ serve sha256 opts h f route_handler db req
    = {| seen := handler_answer (run_handler h false (route_handler req));
         handler_runs := 1;
         db_after := db |}.
Proof.
  intros Hgate%eligible_false. split; [done|].
  pose proof (idempotency_bypass sha256 opts h (select_fault f) db req Hgate) as Hd.
  split; [done|]. unfold serve. by rewrite Hd.
Qed.

Lemma C7_witness :
  (200 < String.length (key_of (post (Some (String.concat "" (replicate 201 "k"))) VNull)))%nat
  ∧ serve digest defaults orders healthy created [legacy_row]
          (post (Some (String.concat "" (replicate 201 "k"))) VNull)
    = {| seen := FromHandler 201 (VString "{}");
         handler_runs := 1;
         db_after := [legacy_row] |}.
Proof.
  assert (200 < String.length
            (key_of (post (Some (String.concat "" (replicate 201 "k"))) VNull)))%nat as Hlen.
  { vm_compute. lia. }
  split; [exact Hlen|].
  exact (proj2 (proj2 (C7_bypass_passes_through digest defaults orders healthy created
                         [legacy_row] _ (or_intror (or_intror (or_intror Hlen)))))).
Defined.

(** C10. The value of the Idempotency-Key header is trimmed before any
    use: two requests whose keys differ only in surrounding white space
    are looked up under the same tuple and get the same decision, and a
    header made of white space only is treated like an absent one, the
    request being passed through. *)
Theorem C10_key_is_trimmed (sha256 : string → string) opts h sf (db : table) req
    (ws1 k ws2 : string) :
  blank ws1 = true → blank ws2 = true →
  tuple_of_req (with_key (Some (ws1 +:+ k +:+ ws2)) req) = tuple_of_req (with_key (Some k) req)
  ∧ idempotency sha256 opts h sf db (with_key (Some (ws1 +:+ k +:+ ws2)) req)
    = idempotency sha256 opts h sf db (with_key (Some k) req)
  ∧ idempotency sha256 opts h sf db (with_key (Some ws1) req) = CallNext None
  ∧ idempotency sha256 opts h sf db (with_key None req) = CallNext None.
Proof.
  intros H1 H2.
  assert (key_of (with_key (Some (ws1 +:+ k +:+ ws2)) req) = key_of (with_key (Some k) req))
    as Hkey by apply (trim_surrounding ws1 k ws2 H1 H2).
  split; [|split; [|split]].
  - unfold tuple_of_req. by rewrite Hkey.
  - unfold idempotency, idempotencyMiddleware. by rewrite Hkey.
  - apply idempotency_bypass, eligible_false. right. right. left.
    by apply trim_blank.
  - apply idempotency_bypass, eligible_false. by right; right; left.
Qed.

Lemma C10_witness :
  blank "  " = true ∧ blank " " = true
  ∧ idempotency digest defaults orders None [legacy_row]
      (with_key (Some ("  " +:+ "abc" +:+ " ")) (post None (VObject 0%nat)))
    = Respond {| reply_headers := [("Idempotent-Replay", "true")];
                 reply_status := 201;
                 reply_body := JValue (VString "{}") |}.
Proof.
  split; [reflexivity|]. split; [reflexivity|].
  rewrite (proj1 (proj2 (C10_key_is_trimmed digest defaults orders None [legacy_row]
                           (post None (VObject 0%nat)) "  " "abc" " " eq_refl eq_refl))).
  reflexivity.
Defined.

(** C8. The fingerprint is a function of method, route and body that does
    not see the order of the keys: for an object-valued body, reordering
    its keys leaves the fingerprint unchanged; a string-valued body is
    hashed as it is; an absent body (undefined or null) has the
    fingerprint of the empty string. *)
Theorem C8_fingerprint_ignores_key_order (sha256 : string → string)
    (method route : string) (h : heap) (l : loc)
    (props props' : list (string * value)) (s : string) :
  h !! l = Some (ORecord props) → NoDup props.*1 → props ≡ₚ props' →
  fingerprint sha256 method route (<[l := ORecord props']> h) (VObject l)
  = fingerprint sha256 method route h (VObject l)
  ∧ fingerprint sha256 method route h (VString s)
    = Normal (sha256 (method +:+ ":" +:+ route +:+ ":" +:+ s))
  ∧ fingerprint sha256 method route h VUndefined
    = fingerprint sha256 method route h (VString "")
  ∧ fingerprint sha256 method route h VNull
    = fingerprint sha256 method route h (VString "").
Proof.
  intros Hl Hnd Hp. split; [|done].
  symmetry. by apply fingerprint_reordered, (reordered_insert h l props props').
Qed.

Lemma C8_witness :
  orders !! 6%nat = Some (ORecord [("item", VString "x"); ("qty", VNumber 2)])
  ∧ fingerprint digest "POST" "/orders"
      (<[6%nat := ORecord [("qty", VNumber 2); ("item", VString "x")]]> orders)
      (VObject 6%nat)
    = fingerprint digest "POST" "/orders" orders (VObject 6%nat).
Proof.
  split; [reflexivity|].
  refine (proj1 (C8_fingerprint_ignores_key_order digest "POST" "/orders" orders 6%nat
                   [("item", VString "x"); ("qty", VNumber 2)]
                   [("qty", VNumber 2); ("item", VString "x")] "" eq_refl _ _)).
  - cbn. apply NoDup_cons. split; [|apply NoDup_singleton].
    by intros [=]%list_elem_of_singleton.
  - apply perm_swap.
Defined.

(** C6. At most one record exists per (agent_id, idempotency_key, method,
    route): the commit keeps the uniqueness of the tuples, whatever the
    table it meets; a commit for a tuple that already has a record
    returns the table unchanged and lets no error out; rows are only ever
    appended, none is updated or deleted; and a table that starts empty
    has unique tuples after any sequence of requests. *)
Theorem C6_one_record_per_tuple (sha256 : string → string) opts h c fault status body
    (route_handler : handler) (arrivals : list (faults * Req.t)) (db : table) :
  (unique_tuples db → unique_tuples (on_finish h c fault status body db))
  ∧ (tuple_of_capture c ∈ tuple_of <$> db → on_finish h c fault status body db = db)
  ∧ (∃ added, on_finish h c fault status body db = db ++ added)
  ∧ (∃ added, serve_all sha256 opts h route_handler arrivals db = db ++ added)
  ∧ unique_tuples (serve_all sha256 opts h route_handler arrivals []).
Proof.
  split; [apply on_finish_unique|]. split; [apply on_finish_taken|].
  split; [|split].
  - destruct (on_finish_cases h c fault status body db) as [->|(j & _ & _ & ->)].
    + exists []. by rewrite app_nil_r.
    + by eexists.
  - apply serve_all_grows.
  - apply serve_all_unique. constructor.
Qed.

Lemma C6_witness :
  let c := {| cap_agent_id := VString "agent-7"; cap_key := "abc";
              cap_method := "POST"; cap_route := "/orders";
              cap_requestHash := "0f" |} in
  unique_tuples [legacy_row]
  ∧ tuple_of_capture c ∈ tuple_of <$> [legacy_row]
  ∧ on_finish orders c None 201 (VString "{}") [legacy_row] = [legacy_row]
  ∧ unique_tuples (on_finish orders c None 201 (VString "{}") [legacy_row]).
Proof.
  intros c.
  assert (unique_tuples [legacy_row]) as Hu by apply NoDup_singleton.
  assert (tuple_of_capture c ∈ tuple_of <$> [legacy_row]) as Hin by apply list_elem_of_here.
  pose proof (C6_one_record_per_tuple digest defaults orders c None 201 (VString "{}")
                created [] [legacy_row]) as (H1 & H2 & _).
  split; [exact Hu|]. split; [exact Hin|]. split; [exact (H2 Hin)|exact (H1 Hu)].
Defined.

(** C5. Every record the core persists has a status code in [200, 300):
    each row of the table after a request was there before or carries a
    2xx status. When the handler of a keyed request completes with
    another status, nothing is committed, so that a retry with the same
    key finds no record and runs the handler again. *)
Theorem C5_only_2xx_is_persisted (sha256 : string → string) opts h f
    (route_handler : handler) (db : table) req :
  let s := serve sha256 opts h f route_handler db req in
  (∀ row, row ∈ db_after s →
     row ∈ db ∨ ∃ code, Row.status_code row = Some code ∧ is_2xx code)
  ∧ (eligible opts req = true → handler_runs s = 1%nat →
     ¬ is_2xx (statusCode (run_handler h true (route_handler req))) →
     db_after s = db
     ∧ queryOne None (db_after s) (tuple_of_req req) = Normal None
     ∧ ∀ f', select_fault f' = None →
         handler_runs (serve sha256 opts h f' route_handler (db_after s) req) = 1%nat).
Proof.
  intros s. split; [intros row; apply serve_rows|].
  intros He Hrun Hstatus. subst s. unfold serve in *.
  rewrite !(idempotency_eligible sha256 opts h _ _ req He) in *.
  destruct (fingerprint sha256 _ _ h _) as [hash|e] eqn:Hfp; [|done].
  destruct (select_fault f) as [e|] eqn:Hf; simpl in Hrun |- *; [done|].
  destruct (list_find _ db) as [[i existing]|] eqn:Hfind; simpl in Hrun |- *.
  { destruct (hash_mismatch _ _); [done|]. by destruct (status_json _ _ _). }
  assert (on_finish h
            {| cap_agent_id := agent_id_of req; cap_key := key_of req;
               cap_method := Req.method req; cap_route := route_of req;
               cap_requestHash := hash |} (insert_fault f)
            (statusCode (run_handler h true (route_handler req)))
            (locals_idemBody (run_handler h true (route_handler req))) db = db) as Hsame.
  { unfold on_finish. unfold is_2xx in Hstatus.
    destruct (_ || _) eqn:Hs; [done|].
    apply orb_false_iff in Hs as [H1%Z.ltb_ge H2%Z.leb_gt]. lia. }
  assert (match sent (run_handler h true (route_handler req)) with
          | Some _ => on_finish h
            {| cap_agent_id := agent_id_of req; cap_key := key_of req;
               cap_method := Req.method req; cap_route := route_of req;
               cap_requestHash := hash |} (insert_fault f)
            (statusCode (run_handler h true (route_handler req)))
            (locals_idemBody (run_handler h true (route_handler req))) db
          | None => db
          end = db) as ->.
  { by destruct (sent _). }
  split; [done|]. split; [by rewrite Hfind|].
  intros f' Hf'. rewrite (idempotency_eligible sha256 opts h _ _ req He), Hfp, Hf'.
  simpl. by rewrite Hfind.
Qed.

Lemma C5_witness :
  let r := post (Some "abc") (VObject 0%nat) in
  eligible defaults r = true
  ∧ ¬ is_2xx (statusCode (run_handler orders true (failing r)))
  ∧ db_after (serve digest defaults orders healthy failing [] r) = []
  ∧ handler_runs (serve digest defaults orders healthy failing
                    (db_after (serve digest defaults orders healthy failing [] r)) r)
    = 1%nat.
Proof.
  intros r.
  assert (¬ is_2xx (statusCode (run_handler orders true (failing r)))) as Hs.
  { change (¬ is_2xx 500). unfold is_2xx. lia. }
  destruct (proj2 (C5_only_2xx_is_persisted digest defaults orders healthy failing [] r)
              eq_refl eq_refl Hs) as (H1 & _ & H3).
  split; [reflexivity|]. split; [exact Hs|]. split; [exact H1|exact (H3 healthy eq_refl)].
Defined.

(** C1. Two request bodies that differ in content are meant to have
    different fingerprints. The replacer array [Object.keys(obj).sort()]
    of [stableStringify] is also a filter on the keys of every nested
    object, so the two payloads below, which differ in a nested field,
    are serialized alike and have the same fingerprint under every
    digest; the second request is answered with the response stored for
    the first. *)
Theorem C1_nested_payloads_collide (sha256 : string → string) :
  let first := post (Some "abc") (VObject 4%nat) in
  let second := post (Some "abc") (VObject 5%nat) in
  let stored := db_after (serve sha256 defaults orders healthy created [] first) in
  JSON_stringify orders (VObject 4%nat) None ≠ JSON_stringify orders (VObject 5%nat) None
  ∧ stableStringify orders (VObject 4%nat)
    = Normal (Some ("{" +:+ DQUOTE +:+ "order" +:+ DQUOTE +:+ ":{}}"))
  ∧ stableStringify orders (VObject 5%nat)
    = Normal (Some ("{" +:+ DQUOTE +:+ "order" +:+ DQUOTE +:+ ":{}}"))
  ∧ fingerprint sha256 "POST" "/orders" orders (VObject 4%nat)
    = fingerprint sha256 "POST" "/orders" orders (VObject 5%nat)
  ∧ serve sha256 defaults orders healthy created stored second
    = {| seen := FromMiddleware {| reply_headers := [("Idempotent-Replay", "true")];
                                   reply_status := 201;
                                   reply_body := JValue (VString "{}") |};
         handler_runs := 0;
         db_after := stored |}.
Proof.
  intros first second stored.
  split; [by vm_compute|]. split; [by vm_compute|]. split; [by vm_compute|].
  split; [by vm_compute|].
  apply serve_respond.
  exact (idempotency_replay sha256 defaults orders None stored second
                (sha256 ("POST:/orders:{" +:+ DQUOTE +:+ "order" +:+ DQUOTE +:+ ":{}}"))
                (committed_row
                   {| cap_agent_id := VString "agent-7"; cap_key := "abc";
                      cap_method := "POST"; cap_route := "/orders";
                      cap_requestHash :=
                        sha256 ("POST:/orders:{" +:+ DQUOTE +:+ "order" +:+ DQUOTE +:+ ":{}}") |}
                   201 (Some "{}"))
                eq_refl eq_refl eq_refl (hash_mismatch_same _) eq_refl).
Qed.

(** C2, as the code has it. A store error raised by the lookup is passed
    to Express with [next(err)]: the middleware sends nothing itself,
    attaches nothing and writes nothing, and the route handler is skipped
    for that request. *)
Theorem C2_lookup_error_is_forwarded (sha256 : string → string) opts h f
    (route_handler : handler) (db : table) req hash err :
  eligible opts req = true →
  fingerprint sha256 (Req.method req) (route_of req) h (Req.body req) = Normal hash →
  select_fault f = Some err →
  idempotency sha256 opts h (select_fault f) db req = CallNextErr err
  ∧ serve sha256 opts h f route_handler db req
    = {| seen := FromErrorHandling err; handler_runs := 0; db_after := db |}.
Proof.
  intros He Hfp Hf.
  assert (idempotency sha256 opts h (select_fault f) db req = CallNextErr err) as Hd.
  { rewrite Hf. by eapply idempotency_lookup_error. }
  split; [done|]. by apply serve_error.
Qed.

Lemma C2_witness :
  eligible defaults (post (Some "abc") (VObject 0%nat)) = true
  ∧ select_fault store_down = Some (DatabaseError "connection terminated")
  ∧ serve digest defaults orders store_down created [] (post (Some "abc") (VObject 0%nat))
    = {| seen := FromErrorHandling (DatabaseError "connection terminated");
         handler_runs := 0;
         db_after := [] |}.
Proof.
  split; [reflexivity|]. split; [reflexivity|].
  exact (proj2 (C2_lookup_error_is_forwarded digest defaults orders store_down created []
                  (post (Some "abc") (VObject 0%nat)) _ _ eq_refl eq_refl eq_refl)).
Defined.

(** C2, as the design document has it, fails: with the store down, the
    keyed request ends in error handling and its handler does not run,
    while the same request without a key is handled. *)
Lemma C2_counterexample :
  select_fault store_down = Some (DatabaseError "connection terminated")
  ∧ serve digest defaults orders store_down created [] (post (Some "abc") (VObject 0%nat))
    = {| seen := FromErrorHandling (DatabaseError "connection terminated");
         handler_runs := 0;
         db_after := [] |}
  ∧ serve digest defaults orders store_down created [] (post None (VObject 0%nat))
    = {| seen := FromHandler 201 (VString "{}"); handler_runs := 1; db_after := [] |}.
Proof. by vm_compute. Qed.

(** C3, as the code has it. When the tuple of a request that passes the
    gates has a stored record whose request_hash equals the fingerprint
    of the request, whose status code is NULL, 0 or a status Node accepts
    (100..999) and whose body can be serialized, the middleware answers
    itself, without running the handler and without writing: header
    Idempotent-Replay: true, the stored status code, or 200 when that is
    NULL or 0, and the stored body handed to [res.json], or the body
    { success: true } when the stored one is falsy. The middleware sets
    that header only after it has found a stored record. *)
Theorem C3_replay_of_stored_record (sha256 : string → string) opts h f
    (route_handler : handler) (db : table) req hash existing :
  eligible opts req = true →
  fingerprint sha256 (Req.method req) (route_of req) h (Req.body req) = Normal hash →
  queryOne (select_fault f) db (tuple_of_req req) = Normal (Some existing) →
  Row.request_hash existing = Some hash →
  100 ≤ replay_status (Row.status_code existing) ≤ 999 →
  (∀ err, JSON_stringify h (Row.response_body existing) None ≠ Throw err) →
  let r := {| reply_headers := [("Idempotent-Replay", "true")];
              reply_status := replay_status (Row.status_code existing);
              reply_body := replay_body (Row.response_body existing) |} in
  serve sha256 opts h f route_handler db req
  = {| seen := FromMiddleware r; handler_runs := 0; db_after := db |}
  ∧ (∀ code, Row.status_code existing = Some code → code ≠ 0 → reply_status r = code)
  ∧ (Row.status_code existing = None ∨ Row.status_code existing = Some 0 →
     reply_status r = 200)
  ∧ (ToBoolean (Row.response_body existing) = true →
     reply_body r = JValue (Row.response_body existing))
  ∧ (ToBoolean (Row.response_body existing) = false →
     reply_body r = JLiteral [("success", VBool true)])
  ∧ (∀ opts' h' sf' (db' : table) req' r',
       idempotency sha256 opts' h' sf' db' req' = Respond r' →
       ("Idempotent-Replay", "true") ∈ reply_headers r' →
       ∃ existing', queryOne sf' db' (tuple_of_req req') = Normal (Some existing'))
  ∧ (∀ opts' h' sf' (db' : table) req' headers err,
       idempotency sha256 opts' h' sf' db' req' = ReplayFailed headers err →
       ∃ existing', queryOne sf' db' (tuple_of_req req') = Normal (Some existing')).
Proof.
  intros He Hfp Hq Hhash Hstatus Hbody r.
  split; [|split; [|split; [|split; [|split; [|split]]]]].
  - apply serve_respond. eapply idempotency_replay; [done..| |].
    + rewrite Hhash. apply hash_mismatch_same.
    + by apply status_json_replay.
  - intros code Hc Hne. simpl. rewrite Hc. simpl.
    by rewrite (proj2 (Z.eqb_neq code 0) Hne).
  - intros [Hc|Hc]; simpl; by rewrite Hc.
  - intros Ht. simpl. unfold replay_body. by rewrite Ht.
  - intros Ht. simpl. unfold replay_body. by rewrite Ht.
  - intros opts' h' sf' db' req' r' Hd Hin.
    destruct (replay_header_only_on_replay sha256 opts' h' sf' db' req' r' Hd Hin)
      as (existing' & Hq' & _).
    by exists existing'.
  - intros opts' h' sf' db' req' headers err Hd.
    destruct (replay_failed_found sha256 opts' h' sf' db' req' headers err Hd)
      as (_ & existing' & Hq' & _).
    by exists existing'.
Qed.

Lemma C3_witness :
  let req := post (Some "abc") (VObject 0%nat) in
  let hash := digest ("POST:/orders:{" +:+ DQUOTE +:+ "item" +:+ DQUOTE +:+ ":"
                      +:+ DQUOTE +:+ "x" +:+ DQUOTE +:+ "}") in
  let existing := committed_row
                    {| cap_agent_id := VString "agent-7"; cap_key := "abc";
                       cap_method := "POST"; cap_route := "/orders";
                       cap_requestHash := hash |} 201 (Some "{}") in
  eligible defaults req = true
  ∧ fingerprint digest "POST" "/orders" orders (VObject 0%nat) = Normal hash
  ∧ queryOne None [existing] (tuple_of_req req) = Normal (Some existing)
  ∧ 100 ≤ replay_status (Row.status_code existing) ≤ 999
  ∧ (∀ err, JSON_stringify orders (Row.response_body existing) None ≠ Throw err)
  ∧ serve digest defaults orders healthy created [existing] req
    = {| seen := FromMiddleware {| reply_headers := [("Idempotent-Replay", "true")];
                                   reply_status := 201;
                                   reply_body := JValue (VString "{}") |};
         handler_runs := 0;
         db_after := [existing] |}.
Proof.
  intros req hash existing.
  assert (100 ≤ replay_status (Row.status_code existing) ≤ 999) as Hstatus.
  { change (100 ≤ 201 ≤ 999). lia. }
  assert (∀ err, JSON_stringify orders (Row.response_body existing) None ≠ Throw err)
    as Hbody.
  { intros err. vm_compute. discriminate. }
  split; [reflexivity|]. split; [reflexivity|]. split; [reflexivity|].
  split; [exact Hstatus|]. split; [exact Hbody|].
  exact (proj1 (C3_replay_of_stored_record digest defaults orders healthy created
                  [existing] req hash existing eq_refl eq_refl eq_refl eq_refl
                  Hstatus Hbody)).
Defined.

(** C3, as the design document has it, fails: a handler answers 200 with
    an empty text, the record is stored with that body and the
    fingerprint of the request, and the retry is answered with the body
    { success: true } instead of the stored one. The same happens after a
    204 without a body, which is stored as NULL. *)
Lemma C3_counterexample :
  let req := post (Some "abc") (VObject 0%nat) in
  let stored := db_after (serve digest defaults orders healthy empty_ok [] req) in
  let stored' := db_after (serve digest defaults orders healthy no_content [] req) in
  ∃ existing existing' hash,
    fingerprint digest "POST" "/orders" orders (VObject 0%nat) = Normal hash
    ∧ queryOne None stored (tuple_of_req req) = Normal (Some existing)
    ∧ Row.request_hash existing = Some hash
    ∧ Row.status_code existing = Some 200
    ∧ Row.response_body existing = VString ""
    ∧ serve digest defaults orders healthy empty_ok stored req
      = {| seen := FromMiddleware {| reply_headers := [("Idempotent-Replay", "true")];
                                     reply_status := 200;
                                     reply_body := JLiteral [("success", VBool true)] |};
           handler_runs := 0;
           db_after := stored |}
    ∧ JLiteral [("success", VBool true)] ≠ JValue (Row.response_body existing)
    ∧ queryOne None stored' (tuple_of_req req) = Normal (Some existing')
    ∧ Row.request_hash existing' = Some hash
    ∧ Row.response_body existing' = VNull
    ∧ serve digest defaults orders healthy no_content stored' req
      = {| seen := FromMiddleware {| reply_headers := [("Idempotent-Replay", "true")];
                                     reply_status := 204;
                                     reply_body := JLiteral [("success", VBool true)] |};
           handler_runs := 0;
           db_after := stored' |}.
Proof. intros req stored stored'. do 3 eexists. by vm_compute. Qed.

(** C4. In a table the core has produced, every record carries the
    fingerprint of its first request. When the tuple of a request that
    passes the gates has a record there whose request_hash differs from
    the fingerprint of the request, the middleware answers 409 with the
    JSON body { success: false, error: 'Idempotency-Key reuse with
    different request payload' }; the handler is not run and no record
    is written. The digest is taken never to be the empty string, as a
    SHA-256 digest in hexadecimal never is. *)
Theorem C4_conflict_on_key_reuse (sha256 : string → string) opts0 h0
    (first_handler : handler) (arrivals : list (faults * Req.t)) opts h f
    (route_handler : handler) req hash existing :
  (∀ s, sha256 s ≠ "") →
  let db := serve_all sha256 opts0 h0 first_handler arrivals [] in
  eligible opts req = true →
  fingerprint sha256 (Req.method req) (route_of req) h (Req.body req) = Normal hash →
  queryOne (select_fault f) db (tuple_of_req req) = Normal (Some existing) →
  Row.request_hash existing ≠ Some hash →
  serve sha256 opts h f route_handler db req
  = {| seen := FromMiddleware
                 {| reply_headers := [];
                    reply_status := 409;
                    reply_body :=
                      JLiteral
                        [("success", VBool false);
                         ("error",
                          VString "Idempotency-Key reuse with different request payload")] |};
       handler_runs := 0;
       db_after := db |}.
Proof.
  intros Hsha db He Hfp Hq Hne.
  destruct (queryOne_elem _ _ _ _ Hq) as (_ & Hin & _).
  destruct (serve_all_hashed sha256 opts0 h0 first_handler arrivals [] existing Hin)
    as [Hnil|[s Hs]]; [by apply elem_of_nil in Hnil|].
  apply serve_respond. eapply idempotency_conflict; [done..|].
  rewrite Hs. apply hash_mismatch_other; [apply Hsha|]. intros Heq. apply Hne. by rewrite Hs, Heq.
Qed.

Lemma C4_witness :
  let req := post (Some "abc") (VObject 1%nat) in
  let db := serve_all tagged defaults orders created
              [(healthy, post (Some "abc") (VObject 0%nat))] [] in
  (∀ s, tagged s ≠ "")
  ∧ eligible defaults req = true
  ∧ (∃ existing hash,
       queryOne None db (tuple_of_req req) = Normal (Some existing)
       ∧ fingerprint tagged "POST" "/orders" orders (VObject 1%nat) = Normal hash
       ∧ Row.request_hash existing ≠ Some hash)
  ∧ seen (serve tagged defaults orders healthy created db req)
    = FromMiddleware {| reply_headers := []; reply_status := 409;
                        reply_body := conflict_body |}
  ∧ handler_runs (serve tagged defaults orders healthy created db req) = 0%nat
  ∧ db_after (serve tagged defaults orders healthy created db req) = db.
Proof.
  intros req db.
  assert (∀ s, tagged s ≠ "") as Hsha by (intros s; discriminate).
  assert (Row.request_hash
            (committed_row
               {| cap_agent_id := VString "agent-7"; cap_key := "abc";
                  cap_method := "POST"; cap_route := "/orders";
                  cap_requestHash :=
                    tagged ("POST:/orders:{" +:+ DQUOTE +:+ "item" +:+ DQUOTE +:+ ":"
                            +:+ DQUOTE +:+ "x" +:+ DQUOTE +:+ "}") |} 201 (Some "{}"))
          ≠ Some (tagged ("POST:/orders:{" +:+ DQUOTE +:+ "item" +:+ DQUOTE +:+ ":"
                          +:+ DQUOTE +:+ "y" +:+ DQUOTE +:+ "}"))) as Hne by discriminate.
  split; [exact Hsha|]. split; [reflexivity|].
  split; [eexists _, _; split; [reflexivity|]; split; [reflexivity|exact Hne]|].
  subst db.
  rewrite (C4_conflict_on_key_reuse tagged defaults orders created
             [(healthy, post (Some "abc") (VObject 0%nat))] defaults orders healthy created
             req _ _ Hsha eq_refl eq_refl eq_refl Hne).
  by repeat split.
Defined.

(** The order payloads hold no object that reaches itself. *)
Lemma orders_acyclic : acyclic orders.
Proof.
  exists (λ l, l). intros l o l' Hl Hin.
  do 8 (destruct l as [|l];
        [simpl in Hl; simplify_eq; simpl in Hin;
         repeat (apply elem_of_cons in Hin as [Hin|Hin]; [simplify_eq; lia|]);
         by apply elem_of_nil in Hin|]).
  done.
Qed.

(** C9, as the code has it. The fingerprinter returns a hash for every
    body that [JSON.stringify] can serialize: every body that is not an
    object, and every body in a heap without circular references. When
    the serialization throws, as it does on a circular structure, the
    middleware passes the exception to Express with [next(err)]: nothing
    is looked up or stored, and the route handler is skipped. *)
Theorem C9_fingerprint_of_serializable_bodies (sha256 : string → string) opts h f
    (route_handler : handler) (db : table) req :
  (acyclic h →
   ∃ hash, fingerprint sha256 (Req.method req) (route_of req) h (Req.body req) = Normal hash)
  ∧ ((∀ l, Req.body req ≠ VObject l) →
     ∃ hash, fingerprint sha256 (Req.method req) (route_of req) h (Req.body req) = Normal hash)
  ∧ (∀ err, eligible opts req = true →
       fingerprint sha256 (Req.method req) (route_of req) h (Req.body req) = Throw err →
       serve sha256 opts h f route_handler db req
       = {| seen := FromErrorHandling err; handler_runs := 0; db_after := db |}).
Proof.
  split; [apply fingerprint_acyclic|]. split.
  - intros Hprim. unfold fingerprint. destruct (Req.body req); simpl; eauto.
    by destruct (Hprim l).
  - intros err He Hfp. by apply serve_error, idempotency_fingerprint_error.
Qed.

Lemma C9_witness :
  let req := post (Some "abc") (VObject 4%nat) in
  let bad := post (Some "abc") (VObject 8%nat) in
  acyclic orders
  ∧ (∃ hash, fingerprint digest "POST" "/orders" orders (VObject 4%nat) = Normal hash)
  ∧ eligible defaults bad = true
  ∧ fingerprint digest "POST" "/orders" looped (VObject 8%nat)
    = Throw (TypeError "Converting circular structure to JSON")
  ∧ serve digest defaults looped healthy created [] bad
    = {| seen := FromErrorHandling (TypeError "Converting circular structure to JSON");
         handler_runs := 0;
         db_after := [] |}.
Proof.
  intros req bad.
  split; [exact orders_acyclic|].
  split; [exact (proj1 (C9_fingerprint_of_serializable_bodies digest defaults orders
                          healthy created [] req) orders_acyclic)|].
  split; [reflexivity|]. split; [reflexivity|].
  exact (proj2 (proj2 (C9_fingerprint_of_serializable_bodies digest defaults looped
                         healthy created [] bad)) _ eq_refl eq_refl).
Defined.

(** C9, as the design document has it, fails: for a body that holds
    itself the fingerprinter throws, the request ends in error handling
    and its handler does not run, while the same request without a key is
    handled. *)
Lemma C9_counterexample :
  looped !! 8%nat = Some (ORecord [("self", VObject 8%nat)])
  ∧ stableStringify looped (VObject 8%nat)
    = Throw (TypeError "Converting circular structure to JSON")
  ∧ fingerprint digest "POST" "/orders" looped (VObject 8%nat)
    = Throw (TypeError "Converting circular structure to JSON")
  ∧ serve digest defaults looped healthy created [] (post (Some "abc") (VObject 8%nat))
    = {| seen := FromErrorHandling (TypeError "Converting circular structure to JSON");
         handler_runs := 0;
         db_after := [] |}
  ∧ serve digest defaults looped healthy created [] (post None (VObject 8%nat))
    = {| seen := FromHandler 201 (VString "{}"); handler_runs := 1; db_after := [] |}.
Proof. by vm_compute. Qed.

(** * Further properties of the code *)

(** ** Lemmas *)
Module MoreFacts.
Import JSONFacts SortFacts MiddlewareFacts TrimFacts.





(** A lookup sees the rows of its tuple only. *)
Lemma queryOne_rows_of (db : table) (t : tuple) :
  queryOne None db t = Normal (head (rows_of t db)).
Proof.
  unfold queryOne, rows_of. f_equal.
  induction db as [|r db IH]; [done|].
  rewrite filter_cons. simpl. destruct (decide (tuple_of r = t)); simpl; [done|].
  rewrite <- IH. by destruct (list_find _ db) as [[i x]|].
Qed.

Lemma queryOne_found (db : table) (t : tuple) :
  t ∈ tuple_of <$> db → ∃ r, queryOne None db t = Normal (Some r) ∧ tuple_of r = t.
Proof.
  intros (r & Hr & Hin)%list_elem_of_fmap. unfold queryOne.
  destruct (list_find_elem_of (λ r, tuple_of r = t) db r Hin (eq_sym Hr)) as [[i r'] Hf].
  rewrite Hf. exists r'. split; [done|]. by apply list_find_Some in Hf as (_ & ? & _).
Qed.

Lemma queryOne_app (db added : table) (t : tuple) (r : Row.t) :
  queryOne None db t = Normal (Some r) → queryOne None (db ++ added) t = Normal (Some r).
Proof.
  rewrite !queryOne_rows_of. unfold rows_of. rewrite filter_app.
  intros [= Hh]. f_equal. by destruct (filter _ db).
Qed.


Lemma trimEnd_idempotent (s : string) : trimEnd (trimEnd s) = trimEnd s.
Proof.
  induction s as [|c s IH]; [done|]. simpl.
  destruct (trimEnd s) as [|d t] eqn:Ht.
  - destruct (isWhiteSpace c) eqn:Hc; [done|]. simpl. by rewrite Hc.
  - simpl in *. by rewrite IH.
Qed.

Lemma trimStart_trimEnd (s : string) :
  trimStart (trimEnd (trimStart s)) = trimEnd (trimStart s).
Proof.
  induction s as [|c s IH]; [done|]. simpl.
  destruct (isWhiteSpace c) eqn:Hc; [done|]. simpl.
  destruct (trimEnd s); rewrite ?Hc; simpl; by rewrite Hc.
Qed.

(** A trimmed string has no white space left to trim. *)
Lemma trim_idempotent (s : string) : trim (trim s) = trim s.
Proof. unfold trim. by rewrite trimStart_trimEnd, trimEnd_idempotent. Qed.

Lemma toUpperCase_char_idempotent (c : ascii) :
  toUpperCase_char (toUpperCase_char c) = toUpperCase_char c.
Proof.
  unfold toUpperCase_char.
  destruct ((97 <=? N_of_ascii c) && (N_of_ascii c <=? 122))%N eqn:Hc; [|by rewrite Hc].
  apply andb_true_iff in Hc as [H1%N.leb_le H2%N.leb_le].
  rewrite N_ascii_embedding by lia.
  destruct ((97 <=? N_of_ascii c - 32) && (N_of_ascii c - 32 <=? 122))%N eqn:Hc'; [|done].
  apply andb_true_iff in Hc' as [H3%N.leb_le _]. lia.
Qed.

Lemma toUpperCase_idempotent (s : string) : toUpperCase (toUpperCase s) = toUpperCase s.
Proof.
  induction s as [|c s IH]; [done|]. simpl. by rewrite toUpperCase_char_idempotent, IH.
Qed.

(** With a replacer array, only what the objects hold under the keys of
    the array shows in the output. *)
Lemma serialize_agree (h1 h2 : heap) (K' K : list string) :
  Forall2 (agree_on K') h1 h2 → (∀ k, k ∈ K → k ∈ K') →
  ∀ fuel stack v,
    SerializeJSONProperty fuel h1 (Some K) stack v
    = SerializeJSONProperty fuel h2 (Some K) stack v.
Proof.
  intros Hh HK.
  induction fuel as [|fuel IH]; intros stack v; destruct v; simpl; try done.
  destruct (h1 !! l) as [o1|] eqn:H1.
  - destruct (Forall2_lookup_l _ _ _ _ _ Hh H1) as (o2 & -> & Ho).
    case_bool_decide; [done|].
    destruct o1 as [e1|p1], o2 as [e2|p2]; simpl in Ho; try done.
    + subst e2. f_equal. apply mapM_ext. intros x _. by rewrite IH.
    + f_equal. apply mapM_ext. intros x Hx. by rewrite (Ho x (HK x Hx)), IH.
  - destruct (h2 !! l) as [o2|] eqn:H2; [|done].
    destruct (Forall2_lookup_r _ _ _ _ _ Hh H2) as (o1 & H1' & _). congruence.
Qed.

Section WithDigest.
Variable sha256 : string → string.

(** What a request adds to the table, if anything. *)
Lemma serve_added opts h f route_handler (db : table) req :
  db_after (serve sha256 opts h f route_handler db req) = db
  ∨ ∃ hash code json,
      eligible opts req = true
      ∧ fingerprint sha256 (Req.method req) (route_of req) h (Req.body req) = Normal hash
      ∧ is_2xx code
      ∧ db_after (serve sha256 opts h f route_handler db req)
        = db ++ [committed_row {| cap_agent_id := agent_id_of req;
                                  cap_key := key_of req;
                                  cap_method := Req.method req;
                                  cap_route := route_of req;
                                  cap_requestHash := hash |} code json].
Proof.
  destruct (eligible opts req) eqn:He.
  2:{ left. unfold serve. by rewrite idempotency_bypass. }
  unfold serve. rewrite idempotency_eligible by done.
  destruct (fingerprint sha256 _ _ h _) as [hash|e]; [|by left].
  destruct (queryOne _ db _) as [[existing|]|e]; simpl; try by left.
  { destruct (hash_mismatch _ _); [by left|]. destruct (status_json _ _ _); by left. }
  destruct (sent _); [|by left].
  match goal with |- context [on_finish h ?c ?ft ?st ?b db] =>
    destruct (on_finish_cases h c ft st b db) as [->|(j & H2 & _ & ->)] end; [by left|].
  right. eauto 10.
Qed.

End WithDigest.
End MoreFacts.

(** ** The middleware *)

Import SortFacts MoreFacts Scenario2.

(** X1. Attaching the interceptor changes nothing of what the client is
    sent: whenever the middleware hands a request on with [next()], with
    or without the wrappers of [res.json] and [res.send], the client gets
    the answer (status and body) the route handler gives without the
    middleware, and the handler runs once. *)
Theorem X1_interceptor_is_transparent (sha256 : string → string) opts h f
    (route_handler : handler) (db : table) req listener :
  idempotency sha256 opts h (select_fault f) db req = CallNext listener →
  seen (serve sha256 opts h f route_handler db req)
  = handler_answer (run_handler h false (route_handler req))
  ∧ handler_runs (serve sha256 opts h f route_handler db req) = 1%nat.
Proof.
  intros Hd. unfold serve. rewrite Hd.
  destruct listener; simpl; [|done].
  unfold handler_answer.
  by rewrite (proj2 (interceptor_transparent h (route_handler req))).
Qed.

Lemma X1_witness :
  idempotency digest defaults orders None [] (post (Some "abc") (VObject 0%nat))
  = CallNext (Some {| cap_agent_id := VString "agent-7"; cap_key := "abc";
                      cap_method := "POST"; cap_route := "/orders";
                      cap_requestHash :=
                        "POST:/orders:{" +:+ DQUOTE +:+ "item" +:+ DQUOTE +:+ ":"
                        +:+ DQUOTE +:+ "x" +:+ DQUOTE +:+ "}" |})
  ∧ seen (serve digest defaults orders healthy created_json []
            (post (Some "abc") (VObject 0%nat)))
    = FromHandler 201 (VString ("{" +:+ DQUOTE +:+ "item" +:+ DQUOTE +:+ ":"
                                +:+ DQUOTE +:+ "x" +:+ DQUOTE +:+ "}")).
Proof.
  split; [reflexivity|].
  exact (proj1 (X1_interceptor_is_transparent digest defaults orders healthy created_json
                  [] (post (Some "abc") (VObject 0%nat)) _ eq_refl)).
Defined.



(** X3. A failure of the commit is dropped. When the INSERT fails the
    table is left as it was; when the response body cannot be serialized
    nothing is inserted; and a failing INSERT changes neither what the
    client gets nor whether the handler runs. *)
Theorem X3_commit_failure_is_dropped (sha256 : string → string) opts h f
    (route_handler : handler) (db : table) req err :
  (insert_fault f = Some err →
   db_after (serve sha256 opts h f route_handler db req) = db)
  ∧ (∀ c code body, responseBodyJson h body = Throw err →
       on_finish h c (insert_fault f) code body db = db)
  ∧ seen (serve sha256 opts h (with_insert_fault (Some err) f) route_handler db req)
    = seen (serve sha256 opts h f route_handler db req)
  ∧ handler_runs (serve sha256 opts h (with_insert_fault (Some err) f) route_handler db req)
    = handler_runs (serve sha256 opts h f route_handler db req).
Proof.
  split; [|split; [|split]].
  - intros Hins. unfold serve.
    destruct (idempotency sha256 opts h (select_fault f) db req) as [[c|]|e|r|hs e]; simpl;
      try done.
    destruct (sent _); [|done]. unfold on_finish. rewrite Hins.
    destruct (_ || _); [done|]. by destruct (responseBodyJson h _).
  - intros c code body Hthrow. unfold on_finish. rewrite Hthrow. by destruct (_ || _).
  - unfold serve. simpl.
    by destruct (idempotency sha256 opts h (select_fault f) db req) as [[c|]|e|r|hs e].
  - unfold serve. simpl.
    by destruct (idempotency sha256 opts h (select_fault f) db req) as [[c|]|e|r|hs e].
Qed.

Lemma X3_witness :
  insert_fault insert_down = Some (DatabaseError "connection terminated")
  ∧ db_after (serve digest defaults orders insert_down created []
                (post (Some "abc") (VObject 0%nat))) = [].
Proof.
  split; [reflexivity|].
  exact (proj1 (X3_commit_failure_is_dropped digest defaults orders insert_down created []
                  (post (Some "abc") (VObject 0%nat))
                  (DatabaseError "connection terminated")) eq_refl).
Defined.

(** X4. De-duplication is scoped by the tuple: the decision on a request
    depends on the table only through the rows stored under the request's
    own (agent, key, method, route); records of other callers, keys,
    methods or routes have no influence on it. *)
Theorem X4_other_tuples_do_not_interfere (sha256 : string → string) opts h sf
    (db1 db2 : table) req :
  rows_of (tuple_of_req req) db1 = rows_of (tuple_of_req req) db2 →
  idempotency sha256 opts h sf db1 req = idempotency sha256 opts h sf db2 req.
Proof.
  intros Hrows. destruct (eligible opts req) eqn:He.
  - rewrite !idempotency_eligible by done.
    destruct sf as [e|]; [done|]. by rewrite !queryOne_rows_of, Hrows.
  - by rewrite !idempotency_bypass.
Qed.

Lemma X4_witness :
  let req := post (Some "abc") (VObject 0%nat) in
  rows_of (tuple_of_req req) [other_agent_row] = rows_of (tuple_of_req req) []
  ∧ idempotency digest defaults orders None [other_agent_row] req
    = idempotency digest defaults orders None [] req.
Proof.
  intros req. split; [reflexivity|].
  exact (X4_other_tuples_do_not_interfere digest defaults orders None
           [other_agent_row] [] req eq_refl).
Defined.

(** X5. What a request can add to the table: a row under the request's own
    tuple, whose key is the trimmed header value, not empty and at most
    200 characters long, whose caller id is truthy, whose method is a
    configured one, whose request hash is the fingerprint of the request,
    whose status is a 2xx code and whose body is a text or NULL. *)
Theorem X5_what_is_stored (sha256 : string → string) opts h f
    (route_handler : handler) (db : table) req row :
  row ∈ db_after (serve sha256 opts h f route_handler db req) →
  row ∉ db →
  tuple_of row = tuple_of_req req
  ∧ Row.idem_key row = trim (default "" (Req.idempotencyKey req))
  ∧ trim (Row.idem_key row) = Row.idem_key row
  ∧ (0 < String.length (Row.idem_key row) ≤ 200)%nat
  ∧ ToBoolean (Row.agent_id row) = true
  ∧ toUpperCase (Row.method row) ∈ configured_methods opts
  ∧ (∃ hash, fingerprint sha256 (Req.method req) (route_of req) h (Req.body req)
             = Normal hash
             ∧ Row.request_hash row = Some hash)
  ∧ (∃ code, Row.status_code row = Some code ∧ is_2xx code)
  ∧ (Row.response_body row = VNull ∨ ∃ text, Row.response_body row = VString text).
Proof.
  intros Hin Hnew.
  destruct (serve_added sha256 opts h f route_handler db req)
    as [Hsame|(hash & code & json & He & Hfp & H2xx & Hadd)].
  { by rewrite Hsame in Hin. }
  rewrite Hadd in Hin. apply elem_of_app in Hin as [Hin|Hin]; [done|].
  apply list_elem_of_singleton in Hin as ->.
  apply eligible_true in He as (Hm & Ha & Hk & Hlen). simpl.
  split; [done|]. split; [done|]. split; [apply trim_idempotent|].
  split.
  { split; [|done]. destruct (key_of req); [done|simpl; lia]. }
  split.
  { unfold no_agent, agent_id_of in *. destruct (Req.agent req); [|done].
    by apply negb_false_iff. }
  split; [done|]. split; [by exists hash|]. split; [by exists code|].
  destruct json; [right; by eexists|by left].
Qed.

Lemma X5_witness :
  let req := post (Some "  abc ") (VObject 0%nat) in
  let row := committed_row
               {| cap_agent_id := VString "agent-7"; cap_key := "abc";
                  cap_method := "POST"; cap_route := "/orders";
                  cap_requestHash :=
                    "POST:/orders:{" +:+ DQUOTE +:+ "item" +:+ DQUOTE +:+ ":"
                    +:+ DQUOTE +:+ "x" +:+ DQUOTE +:+ "}" |} 201 (Some "{}") in
  row ∈ db_after (serve digest defaults orders healthy created [] req)
  ∧ (row ∉ [])
  ∧ Row.idem_key row = trim (default "" (Req.idempotencyKey req)).
Proof.
  intros req row.
  assert (row ∈ db_after (serve digest defaults orders healthy created [] req)) as Hin
    by apply list_elem_of_here.
  assert (row ∉ []) as Hnew by apply not_elem_of_nil.
  split; [exact Hin|]. split; [exact Hnew|].
  exact (proj1 (proj2 (X5_what_is_stored digest defaults orders healthy created [] req row
                         Hin Hnew))).
Defined.

(** X6. At most once after a commit: once the table holds a record under
    the tuple of a request, no request under that tuple runs the handler
    or writes to the table any more, whatever its payload, whatever
    requests came in between and whatever the state of the store; it is
    answered with a replay, a conflict or an error. *)
Theorem X6_no_second_execution (sha256 : string → string) opts h f
    (route_handler later_handler : handler) (arrivals : list (faults * Req.t))
    (db : table) req :
  eligible opts req = true →
  tuple_of_req req ∈ tuple_of <$> db →
  let db' := serve_all sha256 opts h route_handler arrivals db in
  handler_runs (serve sha256 opts h f later_handler db' req) = 0%nat
  ∧ db_after (serve sha256 opts h f later_handler db' req) = db'.
Proof.
  intros He Hin db'.
  destruct (serve_all_grows sha256 opts h route_handler arrivals db) as [added Hdb'].
  assert (tuple_of_req req ∈ tuple_of <$> db') as Hin'.
  { subst db'. rewrite Hdb', fmap_app. apply elem_of_app. by left. }
  destruct (queryOne_found db' _ Hin') as (r & Hq & _).
  unfold serve. rewrite (idempotency_eligible sha256 opts h _ _ req He).
  destruct (fingerprint sha256 _ _ h _) as [hash|e]; [|done].
  destruct (select_fault f) as [e|]; [done|]. rewrite Hq.
  destruct (hash_mismatch _ _); [done|]. by destruct (status_json _ _ _).
Qed.

Lemma X6_witness :
  let req := post (Some "abc") (VObject 5%nat) in
  eligible defaults req = true
  ∧ tuple_of_req req ∈ tuple_of <$> [legacy_row]
  ∧ handler_runs (serve digest defaults orders store_down created
                    (serve_all digest defaults orders created
                       [(healthy, post (Some "xyz") (VObject 0%nat))] [legacy_row])
                    req) = 0%nat.
Proof.
  intros req.
  assert (tuple_of_req req ∈ tuple_of <$> [legacy_row]) as Hin by apply list_elem_of_here.
  split; [reflexivity|]. split; [exact Hin|].
  exact (proj1 (X6_no_second_execution digest defaults orders store_down created created
                  [(healthy, post (Some "xyz") (VObject 0%nat))] [legacy_row] req
                  eq_refl Hin)).
Defined.

(** X7. The first record wins: a record found under a tuple is the one
    found under that tuple after any sequence of further requests; no
    later commit supersedes it. *)
Theorem X7_stored_record_is_kept (sha256 : string → string) opts h
    (route_handler : handler) (arrivals : list (faults * Req.t)) (db : table)
    (t : tuple) (r : Row.t) :
  queryOne None db t = Normal (Some r) →
  queryOne None (serve_all sha256 opts h route_handler arrivals db) t = Normal (Some r).
Proof.
  intros Hq.
  destruct (serve_all_grows sha256 opts h route_handler arrivals db) as [added ->].
  by apply queryOne_app.
Qed.

Lemma X7_witness :
  let t := (VString "agent-7", "abc", "POST", "/orders") in
  queryOne None [legacy_row] t = Normal (Some legacy_row)
  ∧ queryOne None (serve_all digest defaults orders created
                     [(healthy, post (Some "abc") (VObject 0%nat));
                      (healthy, post (Some "xyz") (VObject 0%nat))] [legacy_row]) t
    = Normal (Some legacy_row).
Proof.
  intros t. split; [reflexivity|].
  exact (X7_stored_record_is_kept digest defaults orders created
           [(healthy, post (Some "abc") (VObject 0%nat));
            (healthy, post (Some "xyz") (VObject 0%nat))] [legacy_row] t legacy_row eq_refl).
Defined.

(** X8. The replacer array of [stableStringify] holds the keys of the
    body itself, and it filters every object below it: two bodies with
    the same top-level keys whose objects read alike under those keys get
    the same serialization, and so the same fingerprint, whatever else
    the nested objects hold. *)
Theorem X8_nested_keys_are_filtered (sha256 : string → string) (method route : string)
    (h1 h2 : heap) (l : loc) (p1 p2 : list (string * value)) :
  h1 !! l = Some (ORecord p1) →
  h2 !! l = Some (ORecord p2) →
  p1.*1 ≡ₚ p2.*1 →
  Forall2 (agree_on p1.*1) h1 h2 →
  stableStringify h1 (VObject l) = stableStringify h2 (VObject l)
  ∧ fingerprint sha256 method route h1 (VObject l)
    = fingerprint sha256 method route h2 (VObject l).
Proof.
  intros H1 H2 Hkeys Hh.
  assert (stableStringify h1 (VObject l) = stableStringify h2 (VObject l)) as Hs.
  { unfold stableStringify, Object_keys. rewrite H1, H2. simpl.
    rewrite <- (Array_sort_perm _ _ Hkeys). unfold JSON_stringify.
    rewrite (Forall2_length _ _ _ Hh).
    change (remove_dups <$> Some (Array_sort p1.*1))
      with (Some (remove_dups (Array_sort p1.*1))).
    rewrite (serialize_agree h1 h2 p1.*1 (remove_dups (Array_sort p1.*1)) Hh); [done|].
    intros k Hk. apply (proj1 (elem_of_remove_dups _ _)) in Hk. unfold Array_sort in Hk.
    by rewrite merge_sort_Permutation in Hk. }
  split; [done|]. unfold fingerprint. by rewrite Hs.
Qed.

Lemma X8_witness :
  orders !! 4%nat = Some (ORecord [("order", VObject 2%nat)])
  ∧ orders' !! 4%nat = Some (ORecord [("order", VObject 2%nat)])
  ∧ JSON_stringify orders (VObject 4%nat) None ≠ JSON_stringify orders' (VObject 4%nat) None
  ∧ stableStringify orders (VObject 4%nat) = stableStringify orders' (VObject 4%nat).
Proof.
  split; [reflexivity|]. split; [reflexivity|]. split; [by vm_compute|].
  refine (proj1 (X8_nested_keys_are_filtered digest "POST" "/orders" orders orders' 4%nat
                   [("order", VObject 2%nat)] [("order", VObject 2%nat)]
                   eq_refl eq_refl (Permutation_refl _) _)).
  repeat constructor; intros k Hk; apply list_elem_of_singleton in Hk as ->; reflexivity.
Defined.

(** X9. The hash comparison is skipped for a record without a request
    hash (NULL or empty): every request under its tuple that passes the
    gates and can be fingerprinted is answered from that record, whatever
    its payload, and the handler does not run. When the status of the
    record (200 for NULL or 0) is one Node accepts and its body can be
    serialized, the answer is the stored response; when it is not, the
    request ends in error handling. *)
Theorem X9_record_without_hash_is_replayed (sha256 : string → string) opts h f
    (route_handler : handler) (db : table) req hash existing :
  eligible opts req = true →
  fingerprint sha256 (Req.method req) (route_of req) h (Req.body req) = Normal hash →
  queryOne (select_fault f) db (tuple_of_req req) = Normal (Some existing) →
  Row.request_hash existing = None ∨ Row.request_hash existing = Some "" →
  (100 ≤ replay_status (Row.status_code existing) ≤ 999 →
   (∀ err, JSON_stringify h (Row.response_body existing) None ≠ Throw err) →
   serve sha256 opts h f route_handler db req
   = {| seen := FromMiddleware
                  {| reply_headers := [("Idempotent-Replay", "true")];
                     reply_status := replay_status (Row.status_code existing);
                     reply_body := replay_body (Row.response_body existing) |};
        handler_runs := 0;
        db_after := db |})
  ∧ (¬ 100 ≤ replay_status (Row.status_code existing) ≤ 999 →
     ∃ err, serve sha256 opts h f route_handler db req
            = {| seen := FromErrorHandling err; handler_runs := 0; db_after := db |}).
Proof.
  intros He Hfp Hq Hhash.
  assert (hash_mismatch (Row.request_hash existing) hash = false) as Hm
    by (by destruct Hhash as [->| ->]).
  split.
  - intros Hstatus Hbody. apply serve_respond.
    eapply idempotency_replay; [done..|]. by apply status_json_replay.
  - intros Hstatus. exists (RangeError "Invalid status code").
    eapply serve_replay_failed, idempotency_replay_failed; [done..|].
    unfold status_json, valid_status.
    destruct ((100 <=? _) && (_ <=? 999)) eqn:Hv; [|done].
    apply andb_true_iff in Hv as [H1%Z.leb_le H2%Z.leb_le]. by destruct Hstatus.
Qed.

Lemma X9_witness :
  let req := post (Some "abc") (VObject 5%nat) in
  eligible defaults req = true
  ∧ queryOne None [legacy_row] (tuple_of_req req) = Normal (Some legacy_row)
  ∧ 100 ≤ replay_status (Row.status_code legacy_row) ≤ 999
  ∧ serve digest defaults orders healthy failing [legacy_row] req
    = {| seen := FromMiddleware
                   {| reply_headers := [("Idempotent-Replay", "true")];
                      reply_status := 201;
                      reply_body := JValue (VString "{}") |};
         handler_runs := 0;
         db_after := [legacy_row] |}
  ∧ queryOne None [odd_status_row] (tuple_of_req req) = Normal (Some odd_status_row)
  ∧ ¬ 100 ≤ replay_status (Row.status_code odd_status_row) ≤ 999
  ∧ ∃ err, serve digest defaults orders healthy failing [odd_status_row] req
           = {| seen := FromErrorHandling err;
                handler_runs := 0;
                db_after := [odd_status_row] |}.
Proof.
  intros req.
  assert (100 ≤ replay_status (Row.status_code legacy_row) ≤ 999) as Hok.
  { change (100 ≤ 201 ≤ 999). lia. }
  assert (¬ 100 ≤ replay_status (Row.status_code odd_status_row) ≤ 999) as Hodd.
  { change (¬ 100 ≤ 1000 ≤ 999). lia. }
  split; [reflexivity|]. split; [reflexivity|]. split; [exact Hok|].
  split.
  { refine (proj1 (X9_record_without_hash_is_replayed digest defaults orders healthy failing
                     [legacy_row] req _ legacy_row eq_refl eq_refl eq_refl
                     (or_introl eq_refl)) Hok _).
    intros err. vm_compute. discriminate. }
  split; [reflexivity|]. split; [exact Hodd|].
  exact (proj2 (X9_record_without_hash_is_replayed digest defaults orders healthy failing
                  [odd_status_row] req _ odd_status_row eq_refl eq_refl eq_refl
                  (or_introl eq_refl)) Hodd).
Defined.

(** X10. The [methods] option: an empty array is not replaced by the
    default and switches de-duplication off for every request; and the
    configured names count in upper case, so that giving them in upper
    case already changes nothing. *)
Theorem X10_methods_option (sha256 : string → string) (ms : list string) h sf
    (db : table) req :
  idempotency sha256 {| methods := Some [] |} h sf db req = CallNext None
  ∧ idempotency sha256 {| methods := Some (toUpperCase <$> ms) |} h sf db req
    = idempotency sha256 {| methods := Some ms |} h sf db req.
Proof.
  split.
  - apply idempotency_bypass, eligible_false. left. apply not_elem_of_nil.
  - unfold idempotency, configured_methods. simpl.
    rewrite <- list_fmap_compose. f_equal.
    apply list_fmap_ext. intros i s _. simpl. apply toUpperCase_idempotent.
Qed.

(** ** The schema migrator *)
Module MigrateFacts.
Import Migrate.

(** The effects of the script, world by world. *)
Lemma script_cases (w : world) :
  script w =
    if unset (DATABASE_URL w)
    then [console_error "DATABASE_URL not set"; process_exit 1]
    else
      fs_readFileSync (schemaPath w) ::
      match schema_file w with
      | Throw err => [console_error_thrown err; process_exit 1]
      | Normal sql =>
          new_Pool (default "" (DATABASE_URL w)) (ssl_of w) :: pool_connect ::
          match connect_fault w with
          | Some err => [console_error_thrown err; process_exit 1]
          | None =>
              [console_log "Applying schema.sql..."; client_query sql]
              ++ match query_fault w with
                 | Some _ => []
                 | None => [console_log "Done"]
                 end
              ++ [client_release; pool_end]
              ++ match end_fault w, query_fault w with
                 | Some err, _ | None, Some err =>
                     [console_error_thrown err; process_exit 1]
                 | None, None => []
                 end
          end
      end.
Proof.
  destruct w as [url sslv path file cf qf ef]. unfold script, main. simpl.
  destruct (unset url); [done|].
  destruct file as [sql|e]; [|done].
  destruct cf as [e|]; [done|].
  by destruct qf as [e1|], ef as [e2|].
Qed.

End MigrateFacts.

Import Migrate MigrateFacts.

(** X11. Without DATABASE_URL (unset or empty) the script reports
    'DATABASE_URL not set' and exits with status 1 before it reads the
    schema or touches the database; with it, the first thing the script
    does is to read schema.sql. *)
Theorem X11_missing_url_stops_the_script (w : world) :
  (unset (DATABASE_URL w) = true →
   script w = [console_error "DATABASE_URL not set"; process_exit 1])
  ∧ (unset (DATABASE_URL w) = false →
     head (script w) = Some (fs_readFileSync (schemaPath w))).
Proof. rewrite script_cases. split; by intros ->. Qed.

Lemma X11_witness :
  unset (DATABASE_URL no_url_world) = true
  ∧ script no_url_world = [console_error "DATABASE_URL not set"; process_exit 1]
  ∧ unset (DATABASE_URL local_world) = false
  ∧ head (script local_world) = Some (fs_readFileSync "/srv/api/scripts/schema.sql").
Proof.
  split; [reflexivity|].
  split; [exact (proj1 (X11_missing_url_stops_the_script no_url_world) eq_refl)|].
  split; [reflexivity|].
  exact (proj2 (X11_missing_url_stops_the_script local_world) eq_refl).
Defined.

(** X12. The client is released and the pool is ended exactly once
    whenever a client was obtained, after the schema was sent as read
    from the file, whether the query or [pool.end()] fails or not; and
    they are released only then. *)
Theorem X12_client_is_always_released (w : world) :
  (∀ sql, unset (DATABASE_URL w) = false → schema_file w = Normal sql →
     connect_fault w = None →
     ∃ before after,
       script w = before ++ [client_release; pool_end] ++ after
       ∧ client_query sql ∈ before
       ∧ (client_release ∉ before) ∧ (pool_end ∉ before)
       ∧ (client_release ∉ after) ∧ (pool_end ∉ after))
  ∧ (client_release ∈ script w ∨ pool_end ∈ script w →
     unset (DATABASE_URL w) = false
     ∧ (∃ sql, schema_file w = Normal sql)
     ∧ connect_fault w = None).
Proof.
  rewrite script_cases. split.
  - intros sql -> -> ->.
    exists ([fs_readFileSync (schemaPath w);
             new_Pool (default "" (DATABASE_URL w)) (ssl_of w); pool_connect;
             console_log "Applying schema.sql..."; client_query sql]
            ++ match query_fault w with
               | Some _ => []
               | None => [console_log "Done"]
               end).
    exists (match end_fault w, query_fault w with
            | Some err, _ | None, Some err => [console_error_thrown err; process_exit 1]
            | None, None => []
            end).
    split; [by rewrite <- !app_assoc|].
    destruct (query_fault w), (end_fault w); simpl;
      rewrite ?elem_of_cons, ?elem_of_nil; naive_solver.
  - destruct (unset (DATABASE_URL w)).
    { rewrite !elem_of_cons, !elem_of_nil. naive_solver. }
    destruct (schema_file w) as [sql|e].
    2:{ rewrite !elem_of_cons, !elem_of_nil. naive_solver. }
    destruct (connect_fault w).
    { rewrite !elem_of_cons, !elem_of_nil. naive_solver. }
    eauto.
Qed.

Lemma X12_witness :
  unset (DATABASE_URL bad_schema_world) = false
  ∧ schema_file bad_schema_world = Normal "CREATE TABEL"
  ∧ connect_fault bad_schema_world = None
  ∧ query_fault bad_schema_world = Some (DatabaseError "syntax error")
  ∧ ∃ before after,
      script bad_schema_world = before ++ [client_release; pool_end] ++ after
      ∧ client_query "CREATE TABEL" ∈ before.
Proof.
  do 4 (split; [reflexivity|]).
  destruct (proj1 (X12_client_is_always_released bad_schema_world) "CREATE TABEL"
              eq_refl eq_refl eq_refl) as (before & after & Hs & Hq & _).
  by exists before, after.
Defined.

(** X13. The script ends with [process.exit(1)] exactly when a step
    failed: DATABASE_URL is missing, reading the schema throws, or the
    connection, the query or [pool.end()] fails; and it then exits after
    everything else it does. *)
Theorem X13_exit_status (w : world) :
  (process_exit 1 ∈ script w ↔
     unset (DATABASE_URL w) = true
     ∨ (unset (DATABASE_URL w) = false ∧ ∃ err, schema_file w = Throw err)
     ∨ (unset (DATABASE_URL w) = false ∧ (∃ sql, schema_file w = Normal sql)
        ∧ (is_Some (connect_fault w)
           ∨ is_Some (query_fault w)
           ∨ is_Some (end_fault w))))
  ∧ (process_exit 1 ∈ script w → last (script w) = Some (process_exit 1)).
Proof.
  rewrite script_cases.
  assert (∀ A (x : A), is_Some (Some x)) as Hsome by (intros; by eexists).
  assert (∀ A, ¬ is_Some (@None A)) as Hnone by (intros A [? [=]]).
  destruct (unset (DATABASE_URL w)).
  { split; [|done]. split; [by left|]. intros _. apply list_elem_of_further, list_elem_of_here. }
  destruct (schema_file w) as [sql|e].
  2:{ split; [|done]. split.
      - intros _. right. left. eauto.
      - intros _. do 2 apply list_elem_of_further. apply list_elem_of_here. }
  destruct (connect_fault w) as [e|].
  { split; [|done]. split.
    - intros _. right. right. eauto 10.
    - intros _. do 4 apply list_elem_of_further. apply list_elem_of_here. }
  destruct (query_fault w) as [e1|], (end_fault w) as [e2|]; simpl.
  - split; [|done]. split; [intros _; right; right; eauto 10|].
    intros _. do 8 apply list_elem_of_further. apply list_elem_of_here.
  - split; [|done]. split; [intros _; right; right; eauto 10|].
    intros _. do 8 apply list_elem_of_further. apply list_elem_of_here.
  - split; [|done]. split; [intros _; right; right; eauto 10|].
    intros _. do 9 apply list_elem_of_further. apply list_elem_of_here.
  - assert (process_exit 1 ∉ [fs_readFileSync (schemaPath w);
              new_Pool (default "" (DATABASE_URL w)) (ssl_of w); pool_connect;
              console_log "Applying schema.sql..."; client_query sql;
              console_log "Done"; client_release; pool_end]) as Hnot.
    { rewrite !elem_of_cons, elem_of_nil. naive_solver. }
    split; [|done]. split; [done|].
    intros [[=]|[(_ & err & [=])|(_ & _ & [H|[H|H]])]]; by apply Hnone in H.
Qed.

Lemma X13_witness :
  is_Some (query_fault bad_schema_world)
  ∧ process_exit 1 ∈ script bad_schema_world
  ∧ last (script bad_schema_world) = Some (process_exit 1).
Proof.
  assert (is_Some (query_fault bad_schema_world)) as Hq by (by eexists).
  assert (process_exit 1 ∈ script bad_schema_world) as Hin.
  { apply (proj1 (X13_exit_status bad_schema_world)). right. right.
    split; [reflexivity|]. split; [by eexists|]. right. left. exact Hq. }
  split; [exact Hq|]. split; [exact Hin|].
  exact (proj2 (X13_exit_status bad_schema_world) Hin).
Defined.

(** X14. Which error is reported once a client was obtained: the error of
    [pool.end()] when it fails, and the error of the query only when
    [pool.end()] succeeds. A failure of [pool.end()] in the finally block
    hides a failure of the migration itself. *)
Theorem X14_error_of_pool_end_hides_the_query_error (w : world) (sql : string) :
  unset (DATABASE_URL w) = false → schema_file w = Normal sql →
  connect_fault w = None →
  ∀ err, console_error_thrown err ∈ script w ↔
         end_fault w = Some err ∨ (end_fault w = None ∧ query_fault w = Some err).
Proof.
  intros Hu Hf Hc err. rewrite script_cases, Hu, Hf, Hc.
  destruct (query_fault w) as [e1|], (end_fault w) as [e2|]; simpl;
    rewrite !elem_of_cons, !elem_of_nil; naive_solver.
Qed.

Lemma X14_witness :
  unset (DATABASE_URL bad_schema_world) = false
  ∧ schema_file bad_schema_world = Normal "CREATE TABEL"
  ∧ connect_fault bad_schema_world = None
  ∧ console_error_thrown (DatabaseError "syntax error") ∈ script bad_schema_world.
Proof.
  do 3 (split; [reflexivity|]).
  apply (X14_error_of_pool_end_hides_the_query_error bad_schema_world "CREATE TABEL"
           eq_refl eq_refl eq_refl).
  right. split; reflexivity.
Defined.

(** X15. The pool is created with the DATABASE_URL as connection string;
    TLS is switched on only when DATABASE_SSL is exactly the string
    'true', and then without verification of the server certificate;
    for every other value, or none, [ssl] is false. *)
Theorem X15_pool_options (w : world) (c : string) (ssl : ssl_option) :
  new_Pool c ssl ∈ script w →
  DATABASE_URL w = Some c
  ∧ c ≠ ""
  ∧ (DATABASE_SSL w = Some "true" → ssl = ssl_rejectUnauthorized false)
  ∧ (DATABASE_SSL w ≠ Some "true" → ssl = ssl_false)
  ∧ ssl ≠ ssl_rejectUnauthorized true.
Proof.
  rewrite script_cases. unfold unset, ssl_of.
  destruct (DATABASE_URL w) as [u|].
  2:{ rewrite !elem_of_cons, !elem_of_nil. naive_solver. }
  case_bool_decide as Hu.
  { rewrite !elem_of_cons, !elem_of_nil. naive_solver. }
  simpl. destruct (schema_file w) as [sql|e].
  2:{ rewrite !elem_of_cons, !elem_of_nil. naive_solver. }
  assert (new_Pool c ssl = new_Pool u
            (if bool_decide (DATABASE_SSL w = Some "true")
             then ssl_rejectUnauthorized false else ssl_false) →
          Some u = Some c ∧ c ≠ ""
          ∧ (DATABASE_SSL w = Some "true" → ssl = ssl_rejectUnauthorized false)
          ∧ (DATABASE_SSL w ≠ Some "true" → ssl = ssl_false)
          ∧ ssl ≠ ssl_rejectUnauthorized true) as Hpool.
  { intros [= -> ->]. case_bool_decide; naive_solver. }
  destruct (connect_fault w) as [e|].
  { rewrite !elem_of_cons, !elem_of_nil. naive_solver. }
  destruct (query_fault w) as [e1|], (end_fault w) as [e2|]; simpl;
    rewrite !elem_of_cons, !elem_of_nil; naive_solver.
Qed.

Lemma X15_witness :
  new_Pool "postgres://db.example/api" (ssl_rejectUnauthorized false)
    ∈ script bad_schema_world
  ∧ DATABASE_URL bad_schema_world = Some "postgres://db.example/api".
Proof.
  assert (new_Pool "postgres://db.example/api" (ssl_rejectUnauthorized false)
            ∈ script bad_schema_world) as Hin.
  { change (script bad_schema_world) with
      [fs_readFileSync "/srv/api/scripts/schema.sql";
       new_Pool "postgres://db.example/api" (ssl_rejectUnauthorized false);
       pool_connect; console_log "Applying schema.sql...";
       client_query "CREATE TABEL"; client_release; pool_end;
       console_error_thrown (DatabaseError "syntax error"); process_exit 1].
    apply list_elem_of_further, list_elem_of_here. }
  split; [exact Hin|].
  exact (proj1 (X15_pool_options bad_schema_world _ _ Hin)).
Defined.
